(** * Dynamic_DCF_Model.py: discounted-cash-flow valuation pipeline

    A shallow embedding of the valuation script.  Python and numpy floats
    are idealised as exact rationals ([Qc]); the one float effect that is
    kept is that numpy division by zero yields a non-finite value (inf or
    nan) instead of raising.  Rounding error and overflow are outside
    this model.  The three Python failures the script can meet (a missing
    dictionary or column key, and indexing an empty sequence) are kept as
    exceptions, caught by the script's single [except Exception].

    Where the rounding of a binary float decides what the page shows (the
    zero test of line 85, the rows of [np.arange] at line 157, the labels
    and the test of line 165), module [Binary64] has the same lines on
    IEEE 754 binary64 numbers; the statements on them come last. *)

From Stdlib Require PrimFloat.
From Stdlib Require Import QArith Qcanon Qround Qcabs Lqa.
From stdpp Require Import gmap strings list fin_maps numbers sorting.

Local Open Scope Qc_scope.

(** ** Numbers *)

Definition qc (q : Q) : Qc := Q2Qc q.

(** A numpy float64: a finite value, or a non-finite one ([inf], [-inf],
    [nan] are not told apart). *)
Inductive float : Type :=
  | Fin (q : Qc)
  | NonFin.

Definition fadd (x y : float) : float :=
  match x, y with
  | Fin a, Fin b => Fin (a + b)
  | _, _ => NonFin
  end.

Definition fsub (x y : float) : float :=
  match x, y with
  | Fin a, Fin b => Fin (a - b)
  | _, _ => NonFin
  end.

Definition fmul (x y : float) : float :=
  match x, y with
  | Fin a, Fin b => Fin (a * b)
  | _, _ => NonFin
  end.

(** [x / d].  Every divisor of the script is built from finite inputs, so
    the divisor is a rational; a zero divisor gives a non-finite quotient
    and no exception, as numpy does. *)
Definition fdiv (x : float) (d : Qc) : float :=
  match x with
  | Fin a => if decide (d = 0) then NonFin else Fin (a / d)
  | NonFin => NonFin
  end.

(** Python's [sum]: a left fold that starts from 0. *)
Definition py_sum (l : list float) : float := foldl fadd (Fin 0) l.

(** Round half to even, to an integer. *)
Definition rint (y : Qc) : Z :=
  let f := Qfloor y in
  match Qccompare (y - Qc_of_Z f) (qc (1 # 2)) with
  | Lt => f
  | Gt => (f + 1)%Z
  | Eq => if Z.even f then f else (f + 1)%Z
  end.

(** [round(x, ndigits)] on a finite value. *)
Definition round_q (x : Qc) (ndigits : nat) : Qc :=
  Qc_of_Z (rint (x * qc 10 ^ ndigits)) / qc 10 ^ ndigits.

Definition round (x : float) (ndigits : nat) : float :=
  match x with
  | Fin a => Fin (round_q a ndigits)
  | NonFin => NonFin
  end.

(** [np.arange(start, stop, step)]: ceil((stop - start) / step) values, in
    exact arithmetic.  [Binary64.arange] is the array numpy fills on
    floats. *)
Definition arange (start stop step : Qc) : list Qc :=
  (λ k : nat, start + Qc_of_Z (Z.of_nat k) * step)
    <$> seq 0 (Z.to_nat (Qceiling (this ((stop - start) / step)%Qc))).

(** ** Exceptions *)

Inductive exn : Type :=
  | KeyError (k : string)
  | IndexError.

Inductive result (A : Type) : Type :=
  | Ok (a : A)
  | Raise (e : exn).
Arguments Ok {A} a.
Arguments Raise {A} e.

Global Instance result_ret : MRet result := λ A a, Ok a.
Global Instance result_bind : MBind result := λ A B k m,
  match m with
  | Ok a => k a
  | Raise e => Raise e
  end.

(** [l[-1]] and [.iloc[-1]] *)
Definition getitem_last {A} (l : list A) : result A :=
  match last l with
  | Some x => Ok x
  | None => Raise IndexError
  end.

(** [d[k]] on a dict *)
Definition getitem {V} (d : gmap string V) (k : string) : result V :=
  match d !! k with
  | Some v => Ok v
  | None => Raise (KeyError k)
  end.

(** [d.get(k, default)] *)
Definition get {V} (d : gmap string V) (k : string) (default : V) : V :=
  match d !! k with
  | Some v => v
  | None => default
  end.

(** [enumerate(l, start)] *)
Fixpoint enumerate {A} (start : nat) (l : list A) : list (nat * A) :=
  match l with
  | [] => []
  | x :: l' => (start, x) :: enumerate (S start) l'
  end.

(** ** Statements, series and frames *)

Record Timestamp : Type := { year : Z; month : Z; day : Z }.

(** Chronological order on timestamps. *)
Definition ts_le (a b : Timestamp) : Prop :=
  (year a < year b ∨
   (year a = year b ∧
    (month a < month b ∨ (month a = month b ∧ day a ≤ day b))))%Z.

Global Instance ts_le_dec : RelDecision ts_le.
Proof. intros a b. unfold ts_le. apply _. Defined.

(** A statement as the data provider returns it: one row per line item,
    one column per fiscal period, a missing value being NaN ([None]). *)
Record Statement : Type := {
  periods : list Timestamp;
  items : gmap string (list (option Qc))
}.

(** A frame with one row per period and one column per line item. *)
Record DataFrame : Type := {
  index : list Timestamp;
  columns : gmap string (list (option Qc))
}.

(** [stmt.T / d] *)
Definition transpose_div (s : Statement) (d : Qc) : DataFrame :=
  {| index := periods s;
     columns := (fmap (M := list) (fmap (M := option) (λ x, x / d))) <$> items s |}.

Definition Series : Type := list (Timestamp * option Qc).

(** [df[k]] *)
Definition column (df : DataFrame) (k : string) : result Series :=
  col ← getitem (columns df) k; Ok (zip (index df) col).

(** NaN-propagating addition of two cells. *)
Definition cell_add (x y : option Qc) : option Qc :=
  match x, y with
  | Some a, Some b => Some (a + b)
  | _, _ => None
  end.

(** [a + b] for two series over the same index. *)
Definition series_add (a b : Series) : Series :=
  zip_with (λ p q, (p.1, cell_add p.2 q.2)) a b.

(** [series.dropna()] *)
Definition series_dropna (s : Series) : list Qc :=
  omap snd s.

(** A row of [fcff_df] before NaN rows are dropped. *)
Record RawRow : Type := {
  raw_period : Timestamp;
  raw_cfo : option Qc;
  raw_capex : option Qc;
  raw_fcff : option Qc
}.

(** A row of [fcff_df] once NaN rows are dropped: no cell is NaN. *)
Record Row : Type := {
  period : Timestamp;
  cash_from_operations : Qc;
  capex : Qc;
  free_cash_flow : Qc
}.

(** [pd.DataFrame({...})] of three series over the same index. *)
Definition make_fcff_df (cfo capex fcff : Series) : list RawRow :=
  zip_with (λ (p : Timestamp * option Qc) (q : option Qc * option Qc),
              {| raw_period := p.1; raw_cfo := p.2;
                 raw_capex := q.1; raw_fcff := q.2 |})
           cfo (zip (snd <$> capex) (snd <$> fcff)).

(** Rows compared by their index entry. *)
Definition raw_le (r1 r2 : RawRow) : Prop :=
  ts_le (raw_period r1) (raw_period r2).

Global Instance raw_le_dec : RelDecision raw_le.
Proof. intros r1 r2. unfold raw_le. apply _. Defined.

(** [df.sort_index(ascending=True)].  The statement has one column per
    fiscal period, so the timestamps are pairwise different and the sorted
    order is the only one; rows with equal timestamps, if any, keep no
    particular order. *)
Definition sort_index (rows : list RawRow) : list RawRow :=
  merge_sort raw_le rows.

Definition clean_row (r : RawRow) : option Row :=
  match raw_cfo r, raw_capex r, raw_fcff r with
  | Some c, Some x, Some f =>
      Some {| period := raw_period r; cash_from_operations := c;
              capex := x; free_cash_flow := f |}
  | _, _, _ => None
  end.

(** [df.dropna(how="any")] *)
Definition dropna (rows : list RawRow) : list Row := omap clean_row rows.

(** [.tail(n)] *)
Definition tail {A} (n : nat) (l : list A) : list A :=
  drop (length l - n) l.

Definition qsum (l : list Qc) : Qc := foldr Qcplus 0 l.

(** [.mean()]: NaN on an empty series. *)
Definition mean (l : list Qc) : float :=
  match l with
  | [] => NonFin
  | _ => Fin (qsum l / Qc_of_Z (Z.of_nat (length l)))
  end.

(** ** Inputs of one run *)

(** The sidebar widgets (raw values, before the script divides the
    percentages by 100) and everything the providers return. *)
Record Inputs : Type := {
  ticker_input : string;
  forecast_years : nat;
  fcff_growth_slider : Qc;
  terminal_growth_slider : Qc;
  beta : Qc;
  market_return_input : Qc;
  info : gmap string Qc;
  financials : Statement;
  balance_sheet_stmt : Statement;
  cash_flow_stmt : Statement;
  dgs10 : list (option Qc)
}.

Definition giga : Qc := qc 1000000000.
Definition tax_rate : Qc := qc 0.21.

(** ** Valuation stage *)

Definition cfo_key : string :=
  "Cash Flow From Continuing Operating Activities".
Definition capex_key : string := "Capital Expenditure".

(** Lines 45-58: the FCFF history and its base value. *)
Definition fcff_history (cash_flow : DataFrame) : result (list Row * float) :=
  cfo ← column cash_flow cfo_key;
  capex ← column cash_flow capex_key;
  let fcff := series_add cfo capex in
  let fcff_df := dropna (sort_index (make_fcff_df cfo capex fcff)) in
  let base_fcff := mean (tail 3 (free_cash_flow <$> fcff_df)) in
  Ok (fcff_df, base_fcff).

(** Line 61: [range(last_year + 1, last_year + 1 + forecast_years)] *)
Definition forecast_years_range (last_year : Z) (n : nat) : list Z :=
  (λ k : nat, (last_year + 1 + Z.of_nat k)%Z) <$> seq 0 n.

(** Line 63 *)
Definition projected_fcff (base_fcff : float) (fcff_growth_rate : Qc) (n : nat)
    : list float :=
  (λ i : nat, fmul base_fcff (Fin ((1 + fcff_growth_rate) ^ i))) <$> seq 1 n.

(** Lines 64-67: the projection indexed by year. *)
Definition projection_df (last_year : Z) (base_fcff : float)
    (fcff_growth_rate : Qc) (n : nat) : list (Z * float) :=
  zip (forecast_years_range last_year n)
      (projected_fcff base_fcff fcff_growth_rate n).

(** Lines 72-88: capital structure and discount rate. *)
Record Capital : Type := {
  market_cap : Qc;
  total_debt : Qc;
  cash : Qc;
  net_debt : Qc;
  interest_expense : Qc;
  cost_of_debt : Qc;
  cost_of_equity : Qc;
  total_value : Qc;
  equity_weight : Qc;
  debt_weight : Qc;
  wacc : Qc
}.

(** Lines 85-86.  The zero test is on the exact total;
    [Binary64.capital_structure] has it on the float. *)
Definition equity_weight_of (market_cap total_value : Qc) : Qc :=
  if decide (total_value = 0) then 1 else market_cap / total_value.

Definition debt_weight_of (net_debt total_value : Qc) : Qc :=
  if decide (total_value = 0) then 0 else net_debt / total_value.

Definition capital_structure (info : gmap string Qc) (income_stmt : DataFrame)
    (risk_free_rate beta market_return : Qc) : result Capital :=
  mc ← getitem info "marketCap";
  let market_cap := mc / giga in
  let total_debt := get info "totalDebt" 0 / giga in
  let cash := get info "totalCash" 0 / giga in
  let net_debt := total_debt - cash in
  interest_expense ←
    (if decide (0 < total_debt)
     then s ← column income_stmt "Interest Expense";
          x ← getitem_last (series_dropna s);
          Ok (Qcabs x)
     else Ok 0);
  let cost_of_debt :=
    if decide (0 < total_debt) then interest_expense / total_debt
    else qc 0.02 in
  let cost_of_equity :=
    risk_free_rate + beta * (market_return - risk_free_rate) in
  let total_value := market_cap + net_debt in
  let equity_weight := equity_weight_of market_cap total_value in
  let debt_weight := debt_weight_of net_debt total_value in
  let wacc :=
    equity_weight * cost_of_equity
    + debt_weight * cost_of_debt * (1 - tax_rate) in
  Ok {| market_cap := market_cap; total_debt := total_debt; cash := cash;
        net_debt := net_debt; interest_expense := interest_expense;
        cost_of_debt := cost_of_debt; cost_of_equity := cost_of_equity;
        total_value := total_value; equity_weight := equity_weight;
        debt_weight := debt_weight; wacc := wacc |}.

(** Lines 91 and 171: the projected values discounted at rate [w]. *)
Definition discount (w : Qc) (projected : list float) : list float :=
  (λ p : nat * float, fdiv p.2 ((1 + w) ^ p.1)) <$> enumerate 1 projected.

Record ValuationResult : Type := {
  discounted_fcffs : list float;
  terminal_value : float;
  terminal_value_discounted : float;
  enterprise_value : float;
  equity_value : float;
  shares_outstanding : Qc;
  fair_value_per_share : float
}.

(** Lines 91-100: the base-case valuation. *)
Definition valuation (info : gmap string Qc) (projected : list float)
    (projection : list (Z * float)) (wacc terminal_growth_rate : Qc)
    (n : nat) (net_debt : Qc) : result ValuationResult :=
  let discounted_fcffs := discount wacc (snd <$> projection) in
  final ← getitem_last projected;
  let terminal_value :=
    fdiv (fmul final (Fin (1 + terminal_growth_rate)))
         (wacc - terminal_growth_rate) in
  let terminal_value_discounted := fdiv terminal_value ((1 + wacc) ^ n) in
  let enterprise_value :=
    fadd (py_sum discounted_fcffs) terminal_value_discounted in
  let equity_value := fsub enterprise_value (Fin net_debt) in
  shares_outstanding ← getitem info "sharesOutstanding";
  let fair_value_per_share :=
    fdiv (fmul equity_value (Fin giga)) shares_outstanding in
  Ok {| discounted_fcffs := discounted_fcffs;
        terminal_value := terminal_value;
        terminal_value_discounted := terminal_value_discounted;
        enterprise_value := enterprise_value;
        equity_value := equity_value;
        shares_outstanding := shares_outstanding;
        fair_value_per_share := fair_value_per_share |}.

(** Everything the spinner block (lines 35-100) leaves for the page. *)
Record Context : Type := {
  fcff_df : list Row;
  base_fcff : float;
  last_year : Z;
  fcff_growth_rate : Qc;
  terminal_growth_rate : Qc;
  market_return : Qc;
  projected : list float;
  projection : list (Z * float);
  risk_free_rate : Qc;
  capital : Capital;
  result_of : ValuationResult
}.

Definition compute (inp : Inputs) : result Context :=
  let n := forecast_years inp in
  let fcff_growth_rate := fcff_growth_slider inp / qc 100 in
  let terminal_growth_rate := terminal_growth_slider inp / qc 100 in
  let market_return := market_return_input inp / qc 100 in
  let income_stmt := transpose_div (financials inp) giga in
  let balance_sheet := transpose_div (balance_sheet_stmt inp) giga in
  let cash_flow := transpose_div (cash_flow_stmt inp) giga in
  '(fcff_df, base_fcff) ← fcff_history cash_flow;
  last_period ← getitem_last (period <$> fcff_df);
  let last_year := year last_period in
  let projected := projected_fcff base_fcff fcff_growth_rate n in
  let projection := projection_df last_year base_fcff fcff_growth_rate n in
  rf ← getitem_last (omap id (dgs10 inp));
  let risk_free_rate := rf / qc 100 in
  cap ← capital_structure (info inp) income_stmt risk_free_rate (beta inp)
          market_return;
  val ← valuation (info inp) projected projection (wacc cap)
          terminal_growth_rate n (net_debt cap);
  Ok {| fcff_df := fcff_df; base_fcff := base_fcff; last_year := last_year;
        fcff_growth_rate := fcff_growth_rate;
        terminal_growth_rate := terminal_growth_rate;
        market_return := market_return; projected := projected;
        projection := projection; risk_free_rate := risk_free_rate;
        capital := cap; result_of := val |}.

(** ** Sensitivity grid (lines 157-175) *)

Inductive cell : Type :=
  | Blank                (* NaN: the cell was never assigned *)
  | NA                   (* the string N/A *)
  | Value (x : float).

(** The text of a row or column label is [round(x * 100, 1)] followed by a
    percent sign; the label is identified with the rounded number. *)
Definition label (x : Qc) : Qc := round_q (x * qc 100) 1.

(** The grid: its row and column labels, and its cells by label pair. *)
Record Grid : Type := {
  row_labels : list Qc;
  col_labels : list Qc;
  cells : gmap (Qc * Qc) cell
}.

(** [pd.DataFrame(index=rows, columns=cols)]: every cell NaN. *)
Definition new_grid (rows cols : list Qc) : Grid :=
  {| row_labels := rows; col_labels := cols;
     cells := list_to_map ((λ rc, (rc, Blank)) <$> list_prod rows cols) |}.

(** [df.loc[r, c] = v], for labels the grid was created with. *)
Definition loc_set (df : Grid) (r c : Qc) (v : cell) : Grid :=
  {| row_labels := row_labels df; col_labels := col_labels df;
     cells := <[(r, c) := v]> (cells df) |}.

(** [for x in l: s = body x s], stopping at the first exception. *)
Fixpoint for_each {A S} (l : list A) (body : A → S → result S) (s : S)
    : result S :=
  match l with
  | [] => Ok s
  | x :: l' => s' ← body x s; for_each l' body s'
  end.

(** The body of the inner loop, lines 165-175. *)
Definition sensitivity_step (projected : list float)
    (projection : list (Z * float)) (n : nat) (net_debt shares : Qc)
    (w g : Qc) (df : Grid) : result Grid :=
  if decide (w ≤ g) then Ok (loc_set df (label w) (label g) NA)
  else
    final ← getitem_last projected;
    let tv := fdiv (fmul final (Fin (1 + g))) (w - g) in
    let tv_disc := fdiv tv ((1 + w) ^ n) in
    let ent_val := fadd (py_sum (discount w (snd <$> projection))) tv_disc in
    let eq_val := fsub ent_val (Fin net_debt) in
    let fair_price := fdiv (fmul eq_val (Fin giga)) shares in
    Ok (loc_set df (label w) (label g) (Value (round fair_price 2))).

(** What the body of the inner loop stores at [(w, g)]. *)
Definition written_cell (projected : list float)
    (projection : list (Z * float)) (n : nat) (net_debt shares : Qc)
    (w g : Qc) : result cell :=
  if decide (w ≤ g) then Ok NA
  else
    final ← getitem_last projected;
    let tv := fdiv (fmul final (Fin (1 + g))) (w - g) in
    let tv_disc := fdiv tv ((1 + w) ^ n) in
    let ent_val := fadd (py_sum (discount w (snd <$> projection))) tv_disc in
    let eq_val := fsub ent_val (Fin net_debt) in
    let fair_price := fdiv (fmul eq_val (Fin giga)) shares in
    Ok (Value (round fair_price 2)).

(** Lines 157-158 in exact arithmetic: five rates half a point apart,
    [wacc] in the middle.  [Binary64.wacc_range] has the rows numpy
    produces. *)
Definition wacc_range (wacc : Qc) : list Qc :=
  arange (wacc - qc 0.01) (wacc + qc 0.015) (qc 0.005).

Definition g_range : list Qc := arange (qc 0.035) (qc 0.06) (qc 0.005).

Definition sensitivity (projected : list float)
    (projection : list (Z * float)) (n : nat) (net_debt shares wacc : Qc)
    : result Grid :=
  let sensitivity_df :=
    new_grid (label <$> wacc_range wacc) (label <$> g_range) in
  for_each (wacc_range wacc)
    (λ w df, for_each g_range
               (sensitivity_step projected projection n net_debt shares w) df)
    sensitivity_df.

(** ** Presentation stage *)

(** What a widget shows; the page formats numbers to two decimals. *)
Inductive shown : Type :=
  | Dollars (x : float)
  | Percent (x : float)
  | Number (x : float)
  | Years (n : nat)
  | Text (s : string).

Inductive element : Type :=
  | Title (ticker : string)
  | Intro (ticker : string)
  | Subheader (s : string)
  | Metric (name : string) (v : shown)
  | Write (name : string) (v : shown)
  | Divider
  | LineChart (points : list (Z * float))
  | Dataframe (g : Grid)
  | ErrorNotice (ticker : string)
  | Caption.

(** [str.upper()], on ASCII letters. *)
Definition ascii_upper (c : Ascii.ascii) : Ascii.ascii :=
  let k := Ascii.nat_of_ascii c in
  if ((97 <=? k) && (k <=? 122))%nat then Ascii.ascii_of_nat (k - 32) else c.

Fixpoint upper (s : string) : string :=
  match s with
  | EmptyString => EmptyString
  | String c s' => String (ascii_upper c) (upper s')
  end.

(** Lines 103-133: the metrics. *)
Definition metrics (inp : Inputs) (ctx : Context) : list element :=
  let cap := capital ctx in
  let val := result_of ctx in
  [ Subheader "Key Financial Inputs";
    Metric "Market Cap (B)" (Dollars (Fin (market_cap cap)));
    Metric "Total Debt (B)" (Dollars (Fin (total_debt cap)));
    Metric "Total Cash (B)" (Dollars (Fin (cash cap)));
    (if decide (0 ≤ net_debt cap)
     then Metric "Net Debt (B)" (Dollars (Fin (net_debt cap)))
     else Metric "Net Debt" (Text "O(Excess Cash)"));
    Metric "Interest Expense (B)" (Dollars (Fin (interest_expense cap)));
    Metric "Beta" (Number (Fin (beta inp)));
    Metric "Risk-Free Rate" (Percent (Fin (risk_free_rate ctx * qc 100)));
    Metric "Market Return" (Percent (Fin (market_return ctx * qc 100)));
    Metric "Cost of Debt" (Percent (Fin (cost_of_debt cap * qc 100)));
    Metric "Cost of Equity" (Percent (Fin (cost_of_equity cap * qc 100)));
    Metric "WACC" (Percent (Fin (wacc cap * qc 100)));
    Divider;
    Subheader "Valuation Results";
    Write "Forecast Period" (Years (forecast_years inp));
    Write "FCFF Growth Rate" (Percent (Fin (fcff_growth_rate ctx * qc 100)));
    Write "Terminal Growth Rate"
          (Percent (Fin (terminal_growth_rate ctx * qc 100)));
    Metric "Enterprise Value (in Billions)" (Dollars (enterprise_value val));
    Metric "Equity Value (in Billions)" (Dollars (equity_value val));
    Metric "Fair Value per Share" (Dollars (fair_value_per_share val));
    Divider ].

(** Lines 138-150: the last three historical values, then the projection. *)
Definition chart (ctx : Context) : list element :=
  let historical_fcff :=
    (λ r, (year (period r), Fin (free_cash_flow r))) <$> tail 3 (fcff_df ctx) in
  let combined_fcff := historical_fcff ++ projection ctx in
  [ Subheader "Historical & Projected FCFF";
    LineChart combined_fcff;
    Divider ].

(** Lines 155-177 *)
Definition sensitivity_of (inp : Inputs) (ctx : Context) : result Grid :=
  sensitivity (projected ctx) (projection ctx) (forecast_years inp)
    (net_debt (capital ctx)) (shares_outstanding (result_of ctx))
    (wacc (capital ctx)).

(** The whole script: what the main page shows after one run. *)
Definition run (inp : Inputs) : list element :=
  let ticker := upper (ticker_input inp) in
  if decide (ticker = EmptyString) then [Caption]
  else
    [Title ticker; Intro ticker]
    ++ match compute inp with
       | Raise _ => [ErrorNotice ticker]
       | Ok ctx =>
           metrics inp ctx ++ chart ctx
           ++ Subheader "Sensitivity Analysis"
              :: match sensitivity_of inp ctx with
                 | Raise _ => [ErrorNotice ticker]
                 | Ok df => [Dataframe df]
                 end
       end
    ++ [Divider; Caption].

(** ** Vocabulary of the statements *)

(** The sum of a list of floats, as a mathematical sum (right to left). *)
Definition fsum (l : list float) : float := foldr fadd (Fin 0) l.

(** The periods of a cash-flow frame that report both an operating cash
    flow and a capital expenditure, each with the sum of the two. *)
Definition valid_periods (idx : list Timestamp) (cfo capex : list (option Qc))
    : list Row :=
  omap (λ p : Timestamp * (option Qc * option Qc),
          match p.2.1, p.2.2 with
          | Some c, Some x =>
              Some {| period := p.1; cash_from_operations := c;
                      capex := x; free_cash_flow := c + x |}
          | _, _ => None
          end)
       (zip idx (zip cfo capex)).

(** Oldest period first. *)
Definition chronological (rows : list Row) : Prop :=
  StronglySorted (λ r1 r2, ts_le (period r1) (period r2)) rows.

(** Page elements that display a computed quantity. *)
Definition shows_result (e : element) : bool :=
  match e with
  | Metric _ _ | Write _ _ | LineChart _ | Dataframe _ => true
  | _ => false
  end.

(** The same run with another company profile. *)
Definition with_info (i : gmap string Qc) (inp : Inputs) : Inputs :=
  {| ticker_input := ticker_input inp;
     forecast_years := forecast_years inp;
     fcff_growth_slider := fcff_growth_slider inp;
     terminal_growth_slider := terminal_growth_slider inp;
     beta := beta inp;
     market_return_input := market_return_input inp;
     info := i;
     financials := financials inp;
     balance_sheet_stmt := balance_sheet_stmt inp;
     cash_flow_stmt := cash_flow_stmt inp;
     dgs10 := dgs10 inp |}.

(** The same run with another cash-flow statement. *)
Definition with_cash_flow (s : Statement) (inp : Inputs) : Inputs :=
  {| ticker_input := ticker_input inp;
     forecast_years := forecast_years inp;
     fcff_growth_slider := fcff_growth_slider inp;
     terminal_growth_slider := terminal_growth_slider inp;
     beta := beta inp;
     market_return_input := market_return_input inp;
     info := info inp;
     financials := financials inp;
     balance_sheet_stmt := balance_sheet_stmt inp;
     cash_flow_stmt := s;
     dgs10 := dgs10 inp |}.

Definition is_error_notice (e : element) : bool :=
  match e with
  | ErrorNotice _ => true
  | _ => false
  end.

(** ** Example data *)

Module Sample.

Definition fiscal (y : Z) : Timestamp := {| year := y; month := 6; day := 30 |}.

(** An amount given in billions, as the provider reports it. *)
Definition bn (x : Q) : option Qc := Some (qc (x * 1000000000)).

Definition fiscal_years : list Timestamp :=
  [fiscal 2024; fiscal 2023; fiscal 2022; fiscal 2021; fiscal 2020].

(** Most recent period first; the oldest period lacks its operating cash
    flow. *)
Definition cash_flow : Statement :=
  {| periods := fiscal_years;
     items :=
       {[ "Cash Flow From Continuing Operating Activities" :=
            [bn 120; bn 90; bn 80; bn 70; None];
          "Capital Expenditure" :=
            [bn (-40); bn (-30); bn (-20); bn (-10); bn (-5)] ]} |}.

Definition income : Statement :=
  {| periods := fiscal_years;
     items := {[ "Interest Expense" := [None; bn 2; bn 2; bn 2; bn 1] ]} |}.

Definition balance : Statement := {| periods := fiscal_years; items := ∅ |}.

Definition profile : gmap string Qc :=
  {[ "marketCap" := qc 3000000000000;
     "totalDebt" := qc 50000000000;
     "totalCash" := qc 80000000000;
     "sharesOutstanding" := qc 7430000000 ]}.

(** The sidebar defaults. *)
Definition inputs : Inputs :=
  {| ticker_input := "msft";
     forecast_years := 10;
     fcff_growth_slider := qc 14;
     terminal_growth_slider := qc 5;
     beta := qc 1;
     market_return_input := qc 9;
     info := profile;
     financials := income;
     balance_sheet_stmt := balance;
     cash_flow_stmt := cash_flow;
     dgs10 := [Some (qc 4.1); None; Some (qc 4.25); None] |}.

(** A statement none of whose periods has both values. *)
Definition cash_flow_gaps : Statement :=
  {| periods := [fiscal 2024; fiscal 2023];
     items :=
       {[ "Cash Flow From Continuing Operating Activities" := [bn 120; None];
          "Capital Expenditure" := [None; bn (-30)] ]} |}.

(** A statement with two valid periods. *)
Definition cash_flow_short : Statement :=
  {| periods := [fiscal 2024; fiscal 2023; fiscal 2022];
     items :=
       {[ "Cash Flow From Continuing Operating Activities" :=
            [bn 120; bn 90; None];
          "Capital Expenditure" := [bn (-40); bn (-30); bn (-20)] ]} |}.

(** A company that burns cash. *)
Definition cash_flow_negative : Statement :=
  {| periods := [fiscal 2024; fiscal 2023; fiscal 2022];
     items :=
       {[ "Cash Flow From Continuing Operating Activities" :=
            [bn (-50); bn (-50); bn (-50)];
          "Capital Expenditure" := [bn (-10); bn (-10); bn (-10)] ]} |}.

(** Profiles that lack one field. *)
Definition profile_no_cap : gmap string Qc :=
  {[ "totalDebt" := qc 50000000000;
     "totalCash" := qc 80000000000;
     "sharesOutstanding" := qc 7430000000 ]}.

Definition profile_no_total_debt : gmap string Qc :=
  {[ "marketCap" := qc 3000000000000;
     "totalCash" := qc 80000000000;
     "sharesOutstanding" := qc 7430000000 ]}.

Definition profile_no_total_cash : gmap string Qc :=
  {[ "marketCap" := qc 3000000000000;
     "totalDebt" := qc 50000000000;
     "sharesOutstanding" := qc 7430000000 ]}.

Definition profile_no_shares : gmap string Qc :=
  {[ "marketCap" := qc 3000000000000;
     "totalDebt" := qc 50000000000;
     "totalCash" := qc 80000000000 ]}.

(** A debt-free profile: the discount rate is then the cost of equity. *)
Definition profile_no_debt : gmap string Qc :=
  {[ "marketCap" := qc 3000000000000;
     "sharesOutstanding" := qc 7430000000 ]}.

(** Beta 0 and a 4% treasury yield give a discount rate of 4%, below the
    terminal growth rate of 5%. *)
Definition low_rate (cf : Statement) (terminal_pct : Q) : Inputs :=
  {| ticker_input := "msft";
     forecast_years := 5;
     fcff_growth_slider := qc 14;
     terminal_growth_slider := qc terminal_pct;
     beta := qc 0;
     market_return_input := qc 9;
     info := profile_no_debt;
     financials := income;
     balance_sheet_stmt := balance;
     cash_flow_stmt := cf;
     dgs10 := [Some (qc 4)] |}.

End Sample.

(** ** Vocabulary of the further properties *)

(** The frames the spinner block builds from the statements. *)
Definition cash_flow_frame (inp : Inputs) : DataFrame :=
  transpose_div (cash_flow_stmt inp) giga.

Definition income_frame (inp : Inputs) : DataFrame :=
  transpose_div (financials inp) giga.

(** The exceptions the spinner block can raise. *)
Definition known_failures : list exn :=
  [ IndexError; KeyError cfo_key; KeyError capex_key; KeyError "marketCap";
    KeyError "Interest Expense"; KeyError "sharesOutstanding" ].

(** The data a run cannot do without: both cash-flow columns and a period
    that has both values, a treasury yield, the market capitalisation, an
    interest expense when the company has debt, a forecast year, and the
    number of shares. *)
Definition sufficient (inp : Inputs) : Prop :=
  (∃ cs xs,
     columns (cash_flow_frame inp) !! cfo_key = Some cs
     ∧ columns (cash_flow_frame inp) !! capex_key = Some xs
     ∧ valid_periods (periods (cash_flow_stmt inp)) cs xs ≠ [])
  ∧ (∃ r, Some r ∈ dgs10 inp)
  ∧ is_Some (info inp !! "marketCap")
  ∧ (0 < get (info inp) "totalDebt" 0 →
     ∃ s, column (income_frame inp) "Interest Expense" = Ok s
          ∧ series_dropna s ≠ [])
  ∧ forecast_years inp ≠ 0%nat
  ∧ is_Some (info inp !! "sharesOutstanding").

(** The years on the horizontal axis of the chart. *)
Definition chart_years (ctx : Context) : list Z :=
  (λ r, year (period r)) <$> tail 3 (fcff_df ctx).

(** The same run with another terminal growth rate on the slider. *)
Definition with_terminal_growth (pct : Qc) (inp : Inputs) : Inputs :=
  {| ticker_input := ticker_input inp;
     forecast_years := forecast_years inp;
     fcff_growth_slider := fcff_growth_slider inp;
     terminal_growth_slider := pct;
     beta := beta inp;
     market_return_input := market_return_input inp;
     info := info inp;
     financials := financials inp;
     balance_sheet_stmt := balance_sheet_stmt inp;
     cash_flow_stmt := cash_flow_stmt inp;
     dgs10 := dgs10 inp |}.

(** The same run with another text in the ticker box. *)
Definition with_ticker (t : string) (inp : Inputs) : Inputs :=
  {| ticker_input := t;
     forecast_years := forecast_years inp;
     fcff_growth_slider := fcff_growth_slider inp;
     terminal_growth_slider := terminal_growth_slider inp;
     beta := beta inp;
     market_return_input := market_return_input inp;
     info := info inp;
     financials := financials inp;
     balance_sheet_stmt := balance_sheet_stmt inp;
     cash_flow_stmt := cash_flow_stmt inp;
     dgs10 := dgs10 inp |}.

Module Unordered.

(** The cash-flow statement of [Sample], listed oldest period first. *)
Definition cash_flow : Statement :=
  {| periods :=
       [Sample.fiscal 2020; Sample.fiscal 2021; Sample.fiscal 2022;
        Sample.fiscal 2023; Sample.fiscal 2024];
     items :=
       {[ cfo_key :=
            [None; Sample.bn 70; Sample.bn 80; Sample.bn 90; Sample.bn 120];
          capex_key :=
            [Sample.bn (-5); Sample.bn (-10); Sample.bn (-20);
             Sample.bn (-30); Sample.bn (-40)] ]} |}.

End Unordered.

(** ** Binary floating point (lines 72-100 and 157-175)

    The same lines once more on IEEE 754 binary64 numbers, with the
    operations of the processor (each result correctly rounded, halves to
    even), for the places where the rounding of a float decides what the
    page shows: the zero test of line 85, the rows [np.arange] produces,
    the labels, the test of line 165.  The inputs are the values the
    lookups of a successful run return. *)

Module Binary64.
Import PrimFloat.
#[local] Open Scope float_scope.
#[local] Set Warnings "-inexact-float".

(** [np.rint]: the nearest integer, a half going to the even one.  Adding
    and then subtracting 2^52 leaves that integer, for a magnitude below
    2^52. *)
Definition rint (x : float) : float :=
  if ltb x 0 then - ((- x + 0x1p52) - 0x1p52) else (x + 0x1p52) - 0x1p52.

Fixpoint pow10 (ndigits : nat) : float :=
  match ndigits with
  | O => 1
  | S k => 10 * pow10 k
  end.

(** [round(x, ndigits)] on a numpy float: multiply by the power of ten,
    [rint], divide. *)
Definition round (x : float) (ndigits : nat) : float :=
  rint (x * pow10 ndigits) / pow10 ndigits.

(** The number in a row or column label, [round(w * 100, 1)]. *)
Definition label (w : float) : float := round (w * 100) 1.

(** The least [k] with [x <= n + k], counting up; at most [fuel]. *)
Fixpoint ceil_from (fuel : nat) (n x : float) : nat :=
  match fuel with
  | O => O
  | S fuel' => if leb x n then O else S (ceil_from fuel' (n + 1) x)
  end.

(** The values of index [i], [i + 1], ...: [start + i * delta]. *)
Fixpoint fill (start delta i : float) (k : nat) : list float :=
  match k with
  | O => []
  | S k' => (start + i * delta) :: fill start delta (i + 1) k'
  end.

(** [np.arange(start, stop, step)]: ceil((stop - start) / step) values;
    the first two are [start] and [start + step], the others are
    [start + i * delta] where [delta] is the second minus the first.  The
    count stops at 64; the two ranges of the script have five to seven
    values at a finite rate (at a rate that is not finite numpy raises,
    which is left out here). *)
Definition arange (start stop step : float) : list float :=
  let next := start + step in
  match ceil_from 64 0 ((stop - start) / step) with
  | O => []
  | S O => [start]
  | S (S k) => start :: next :: fill start (next - start) 2 k
  end.

(** Line 157 *)
Definition wacc_range (wacc : float) : list float :=
  arange (wacc - 0.01) (wacc + 0.015) 0.005.

(** Line 158 *)
Definition g_range : list float := arange 0.035 0.06 0.005.

(** What a run reads: the two cash-flow lines of the periods that have
    both, oldest first, in dollars; the sidebar; the last value of the
    treasury series; the profile; the last interest expense. *)
Record Inputs : Set := {
  cash_flow_periods : list (float * float);
  forecast_years : nat;
  fcff_growth_slider : float;
  terminal_growth_slider : float;
  beta : float;
  market_return_input : float;
  dgs10_last : float;
  marketCap : float;
  totalDebt : float;
  totalCash : float;
  interest_expense_last : float;
  sharesOutstanding : float
}.

Record Capital : Set := {
  market_cap : float;
  total_debt : float;
  cash : float;
  net_debt : float;
  interest_expense : float;
  cost_of_debt : float;
  cost_of_equity : float;
  total_value : float;
  equity_weight : float;
  debt_weight : float;
  wacc : float
}.

(** Lines 70-88 *)
Definition capital_structure (inp : Inputs) : Capital :=
  let market_return := market_return_input inp / 100 in
  let risk_free_rate := dgs10_last inp / 100 in
  let market_cap := marketCap inp / 1e9 in
  let total_debt := totalDebt inp / 1e9 in
  let cash := totalCash inp / 1e9 in
  let net_debt := total_debt - cash in
  let interest_expense :=
    if ltb 0 total_debt then abs (interest_expense_last inp / 1e9) else 0 in
  let cost_of_debt :=
    if ltb 0 total_debt then interest_expense / total_debt else 0.02 in
  let tax_rate := 0.21 in
  let cost_of_equity :=
    risk_free_rate + beta inp * (market_return - risk_free_rate) in
  let total_value := market_cap + net_debt in
  let equity_weight :=
    if negb (eqb total_value 0) then market_cap / total_value else 1 in
  let debt_weight :=
    if negb (eqb total_value 0) then net_debt / total_value else 0 in
  let wacc :=
    (equity_weight * cost_of_equity)
    + (debt_weight * cost_of_debt * (1 - tax_rate)) in
  {| market_cap := market_cap; total_debt := total_debt; cash := cash;
     net_debt := net_debt; interest_expense := interest_expense;
     cost_of_debt := cost_of_debt; cost_of_equity := cost_of_equity;
     total_value := total_value; equity_weight := equity_weight;
     debt_weight := debt_weight; wacc := wacc |}.

(** Python's [sum]: a left fold that starts from 0. *)
Definition py_sum (l : list float) : float := foldl add 0 l.

Fixpoint of_nat (n : nat) : float :=
  match n with
  | O => 0
  | S k => of_nat k + 1
  end.

(** [Series.mean]: the sum over the count. *)
Definition mean (l : list float) : float := py_sum l / of_nat (length l).

Definition tail {A} (n : nat) (l : list A) : list A := drop (length l - n) l.

(** Lines 41-58: both lines in billions, their sum, the mean of the last
    three. *)
Definition base_fcff (inp : Inputs) : float :=
  mean (tail 3 ((λ p, p.1 / 1e9 + p.2 / 1e9) <$> cash_flow_periods inp)).

Definition enumerate {A} (start : nat) (l : list A) : list (nat * A) :=
  zip (seq start (length l)) l.

(** [x ** i] by repeated multiplication: the power itself, as C's [pow]
    returns it, wherever every product is exact. *)
Fixpoint powi (x : float) (i : nat) : float :=
  match i with
  | O => 1
  | S k => powi x k * x
  end.

Inductive cell : Set :=
  | NA                   (* the string N/A *)
  | Value (x : float).

(** The grid as the assignments made to it, the latest first, each under
    the numbers of its two labels. *)
Definition Grid : Set := list ((float * float) * cell).

(** [df.loc[r, c] = v] *)
Definition loc_set (df : Grid) (r c : float) (v : cell) : Grid :=
  ((r, c), v) :: df.

(** [df.loc[r, c]]; [None] for a cell never assigned. *)
Definition loc (df : Grid) (r c : float) : option cell :=
  snd <$> List.find (λ e, eqb e.1.1 r && eqb e.1.2 c) df.

Section Pow.

(** [x ** i] for a float [x] and an integer [i]: the [pow] of the C
    library, of which nothing is assumed. *)
Variable pow : float → nat → float.

(** Line 63 *)
Definition projected_fcff (inp : Inputs) : list float :=
  (λ i : nat, base_fcff inp * pow (1 + fcff_growth_slider inp / 100) i)
    <$> seq 1 (forecast_years inp).

(** Lines 91-100.  The slider of line 24 keeps [forecast_years] at 5 or
    more, so the projection has a last value. *)
Definition fair_value_per_share (inp : Inputs) : float :=
  let terminal_growth_rate := terminal_growth_slider inp / 100 in
  let wacc := wacc (capital_structure inp) in
  let net_debt := net_debt (capital_structure inp) in
  let projected_fcff := projected_fcff inp in
  let discounted_fcffs :=
    (λ p : nat * float, p.2 / pow (1 + wacc) p.1)
      <$> enumerate 1 projected_fcff in
  let terminal_value :=
    default nan (last projected_fcff) * (1 + terminal_growth_rate)
    / (wacc - terminal_growth_rate) in
  let terminal_value_discounted :=
    terminal_value / pow (1 + wacc) (forecast_years inp) in
  let enterprise_value :=
    py_sum discounted_fcffs + terminal_value_discounted in
  let equity_value := enterprise_value - net_debt in
  (equity_value * 1e9) / sharesOutstanding inp.

(** Lines 168-174 *)
Definition fair_price (inp : Inputs) (w g : float) : float :=
  let net_debt := net_debt (capital_structure inp) in
  let projected_fcff := projected_fcff inp in
  let tv := default nan (last projected_fcff) * (1 + g) / (w - g) in
  let tv_disc := tv / pow (1 + w) (forecast_years inp) in
  let ent_val :=
    py_sum ((λ p : nat * float, p.2 / pow (1 + w) p.1)
              <$> enumerate 1 projected_fcff)
    + tv_disc in
  let eq_val := ent_val - net_debt in
  (eq_val * 1e9) / sharesOutstanding inp.

(** The body of the inner loop, lines 165-175. *)
Definition sensitivity_step (inp : Inputs) (w g : float) (df : Grid) : Grid :=
  if leb w g then loc_set df (label w) (label g) NA
  else loc_set df (label w) (label g) (Value (round (fair_price inp w g) 2)).

(** Lines 157-175 *)
Definition sensitivity (inp : Inputs) : Grid :=
  foldl (λ df w, foldl (λ df g, sensitivity_step inp w g df) df g_range)
        [] (wacc_range (wacc (capital_structure inp))).

End Pow.

Module Sample.

Definition three_periods : list (float * float) :=
  [(91e9, -10e9); (93e9, -10e9); (95e9, -10e9)].

(** A company without debt at a treasury yield of 3.5% and a beta of 0:
    the discount rate is 3.5%. *)
Definition low_rate : Inputs :=
  {| cash_flow_periods := three_periods; forecast_years := 10;
     fcff_growth_slider := 14; terminal_growth_slider := 5;
     beta := 0; market_return_input := 9; dgs10_last := 3.5;
     marketCap := 3e12; totalDebt := 0; totalCash := 0;
     interest_expense_last := 0; sharesOutstanding := 7217387958 |}.

(** A company whose cash is its market capitalisation plus its debt. *)
Definition net_cash : Inputs :=
  {| cash_flow_periods := three_periods; forecast_years := 10;
     fcff_growth_slider := 14; terminal_growth_slider := 5;
     beta := 1; market_return_input := 9; dgs10_last := 4.25;
     marketCap := 3e8; totalDebt := 1e8; totalCash := 4e8;
     interest_expense_last := -5e6; sharesOutstanding := 7217387958 |}.


End Sample.

End Binary64.

(** * Properties *)

(** ** Rational arithmetic: from [Qc] to [Q] *)

Lemma this_Qc_of_Z z : this (Qc_of_Z z) = inject_Z z.
Proof. reflexivity. Qed.

Lemma this_add x y : (this (x + y) == this x + this y)%Q.
Proof. apply Qred_correct. Qed.

Lemma this_opp x : (this (- x) == - this x)%Q.
Proof. apply Qred_correct. Qed.

Lemma this_sub x y : (this (x - y) == this x - this y)%Q.
Proof. unfold Qcminus. rewrite this_add, this_opp. reflexivity. Qed.

Lemma this_mul x y : (this (x * y) == this x * this y)%Q.
Proof. apply Qred_correct. Qed.

Lemma this_inv x : (this (/ x) == / this x)%Q.
Proof. apply Qred_correct. Qed.

Lemma this_div x y : (this (x / y) == this x / this y)%Q.
Proof. unfold Qcdiv. rewrite this_mul, this_inv. reflexivity. Qed.

Lemma this_qc q : (this (qc q) == q)%Q.
Proof. apply Qred_correct. Qed.

Lemma Qc_eq_Q (x y : Qc) : x = y ↔ (this x == this y)%Q.
Proof. split; [intros ->; reflexivity | apply Qc_is_canon]. Qed.

(** Turns a goal and its hypotheses over [Qc] into ones over [Q]. *)
Ltac qc2q :=
  repeat match goal with
  | H : @eq Qc _ _ |- _ => apply Qc_eq_Q in H
  | H : ¬ @eq Qc _ _ |- _ => rewrite Qc_eq_Q in H
  | |- @eq Qc _ _ => apply Qc_eq_Q
  | |- ¬ @eq Qc _ _ => rewrite Qc_eq_Q
  end;
  unfold Qcle, Qclt in *;
  repeat first
    [ rewrite this_div in * | rewrite this_inv in * | rewrite this_add in *
    | rewrite this_sub in * | rewrite this_opp in * | rewrite this_mul in *
    | rewrite this_qc in * | rewrite this_Qc_of_Z in * ].

Ltac qc_lra := qc2q; cbv [inject_Z Z.of_nat Pos.of_succ_nat Pos.succ] in *; lra.

Lemma Qc_of_Z_inj a b : Qc_of_Z a = Qc_of_Z b → a = b.
Proof.
  intros H. apply (f_equal this) in H. rewrite !this_Qc_of_Z in H.
  by injection H.
Qed.

Lemma Qcdiv_mul_cancel (x d : Qc) : d ≠ 0 → x / d * d = x.
Proof. intros Hd. field. exact Hd. Qed.

Lemma giga_neq_0 : giga ≠ 0.
Proof. unfold giga. qc_lra. Qed.

(** ** Float arithmetic *)

Lemma fadd_comm x y : fadd x y = fadd y x.
Proof. destruct x, y; simpl; try done. by rewrite Qcplus_comm. Qed.

Lemma fadd_assoc x y z : fadd x (fadd y z) = fadd (fadd x y) z.
Proof. destruct x, y, z; simpl; try done. by rewrite Qcplus_assoc. Qed.

Lemma fadd_0_r x : fadd x (Fin 0) = x.
Proof. destruct x; simpl; try done. by rewrite Qcplus_0_r. Qed.

Lemma foldl_fadd a l : foldl fadd a l = fadd a (fsum l).
Proof.
  revert a. induction l as [|x l IH]; intros a; simpl.
  - by rewrite fadd_0_r.
  - rewrite IH. by rewrite fadd_assoc.
Qed.

(** Python's left-to-right [sum] is the mathematical sum. *)
Lemma py_sum_fsum l : py_sum l = fsum l.
Proof.
  unfold py_sum. rewrite foldl_fadd. rewrite fadd_comm. apply fadd_0_r.
Qed.

Lemma fdiv_fin (a d : Qc) : d ≠ 0 → fdiv (Fin a) d = Fin (a / d).
Proof. intros Hd. unfold fdiv. by rewrite decide_False. Qed.

Lemma fdiv_zero (x : float) : fdiv x 0 = NonFin.
Proof. destruct x; simpl; try done. Qed.

(** ** Lists *)

Lemma enumerate_lookup {A} (l : list A) (s i : nat) :
  enumerate s l !! i = (λ x, ((s + i)%nat, x)) <$> l !! i.
Proof.
  revert s i. induction l as [|x l IH]; intros s [|i]; simpl; try done.
  - by rewrite Nat.add_0_r.
  - rewrite IH. by rewrite Nat.add_succ_r.
Qed.

Lemma enumerate_length {A} (l : list A) s : length (enumerate s l) = length l.
Proof. revert s. induction l; intros s; simpl; auto. Qed.

Lemma discount_length w l : length (discount w l) = length l.
Proof. unfold discount. by rewrite length_fmap, enumerate_length. Qed.

Lemma discount_lookup w l i :
  discount w l !! i = (λ x, fdiv x ((1 + w) ^ S i)) <$> l !! i.
Proof.
  unfold discount. rewrite list_lookup_fmap, enumerate_lookup.
  by destruct (l !! i).
Qed.

Lemma tail_short {A} (n : nat) (l : list A) :
  (length l ≤ n)%nat → tail n l = l.
Proof. intros H. unfold tail. by replace (length l - n)%nat with 0%nat by lia. Qed.

Lemma tail_app {A} (l k : list A) : tail (length k) (l ++ k) = k.
Proof.
  unfold tail. rewrite length_app.
  replace (length l + length k - length k)%nat with (length l) by lia.
  by rewrite drop_app_length.
Qed.

Lemma getitem_last_Ok {A} (l : list A) x :
  getitem_last l = Ok x ↔ last l = Some x.
Proof. unfold getitem_last. destruct (last l); naive_solver. Qed.

Lemma getitem_last_nil {A} : getitem_last (@nil A) = Raise IndexError.
Proof. reflexivity. Qed.

Lemma getitem_Ok {V} (d : gmap string V) k v :
  getitem d k = Ok v ↔ d !! k = Some v.
Proof. unfold getitem. destruct (d !! k); naive_solver. Qed.

Lemma bind_Ok {A B} (m : result A) (k : A → result B) b :
  m ≫= k = Ok b ↔ ∃ a, m = Ok a ∧ k a = Ok b.
Proof.
  destruct m as [a|e]; simpl; split.
  - intros H. by exists a.
  - intros (a' & Ha & H). by injection Ha as ->.
  - discriminate.
  - intros (a' & Ha & _). discriminate.
Qed.

(** ** The FCFF history (lines 45-58) *)

Lemma ts_le_total : Total ts_le.
Proof. intros a b. unfold ts_le. lia. Qed.

Lemma ts_le_trans : Transitive ts_le.
Proof. intros a b c. unfold ts_le. lia. Qed.

Lemma column_Some (df : DataFrame) k col :
  columns df !! k = Some col → column df k = Ok (zip (index df) col).
Proof. intros H. unfold column, getitem. by rewrite H. Qed.

(** The frame built from the two columns and their sum has one row per
    period, whose third cell is the NaN-propagating sum of the other two. *)
Lemma make_fcff_df_rows idx cs xs :
  make_fcff_df (zip idx cs) (zip idx xs)
               (series_add (zip idx cs) (zip idx xs))
  = (λ p : Timestamp * (option Qc * option Qc),
       {| raw_period := p.1; raw_cfo := p.2.1; raw_capex := p.2.2;
          raw_fcff := cell_add p.2.1 p.2.2 |}) <$> zip idx (zip cs xs).
Proof.
  unfold make_fcff_df, series_add. revert cs xs.
  induction idx as [|t idx IH]; intros [|c cs] [|x xs]; simpl; try done.
  f_equal. apply IH.
Qed.

Lemma dropna_rows (l : list (Timestamp * (option Qc * option Qc))) :
  dropna ((λ p : Timestamp * (option Qc * option Qc),
             {| raw_period := p.1; raw_cfo := p.2.1; raw_capex := p.2.2;
                raw_fcff := cell_add p.2.1 p.2.2 |}) <$> l)
  = omap (λ p : Timestamp * (option Qc * option Qc),
            match p.2.1, p.2.2 with
            | Some c, Some x =>
                Some {| period := p.1; cash_from_operations := c;
                        capex := x; free_cash_flow := c + x |}
            | _, _ => None
            end) l.
Proof.
  unfold dropna. induction l as [|[t [c x]] l IH]; [done|].
  cbn [fmap list_fmap omap list_omap]. rewrite IH.
  unfold clean_row. simpl. by destruct c, x.
Qed.

Lemma clean_row_period r r' : clean_row r = Some r' → period r' = raw_period r.
Proof.
  unfold clean_row.
  destruct (raw_cfo r), (raw_capex r), (raw_fcff r); try done.
  by intros [= <-].
Qed.

Lemma dropna_chronological rows :
  StronglySorted raw_le rows → chronological (dropna rows).
Proof.
  unfold chronological, dropna.
  induction 1 as [|r rows Hs IH Hall]; simpl; [constructor|].
  destruct (clean_row r) as [r'|] eqn:Hr; [|done].
  constructor; [done|].
  apply Forall_forall. intros r2 Hin.
  apply list_elem_of_omap in Hin as (r0 & Hin0 & Hr0).
  rewrite Forall_forall in Hall. specialize (Hall _ Hin0).
  unfold raw_le in Hall.
  by rewrite (clean_row_period _ _ Hr), (clean_row_period _ _ Hr0).
Qed.

Lemma sort_index_sorted rows : StronglySorted raw_le (sort_index rows).
Proof.
  assert (Htrans : Transitive raw_le).
  { intros a b c. unfold raw_le. apply ts_le_trans. }
  assert (Htotal : Total raw_le).
  { intros a b. unfold raw_le. apply ts_le_total. }
  unfold sort_index. apply (StronglySorted_merge_sort raw_le).
Qed.

Lemma sort_index_perm rows : sort_index rows ≡ₚ rows.
Proof. unfold sort_index. apply merge_sort_Permutation. Qed.

Lemma valid_periods_fcff idx cs xs r :
  r ∈ valid_periods idx cs xs →
  free_cash_flow r = cash_from_operations r + capex r.
Proof.
  unfold valid_periods. intros Hin.
  apply list_elem_of_omap in Hin as ([t [[c|] [x|]]] & _ & Hr); simpl in Hr;
    try done.
  by injection Hr as <-.
Qed.

(** What [fcff_history] returns once both columns exist. *)
Lemma fcff_history_eq (cf : DataFrame) cs xs :
  columns cf !! cfo_key = Some cs →
  columns cf !! capex_key = Some xs →
  ∃ rows,
    fcff_history cf = Ok (rows, mean (tail 3 (free_cash_flow <$> rows)))
    ∧ chronological rows
    ∧ rows ≡ₚ valid_periods (index cf) cs xs.
Proof.
  intros Hc Hx. unfold fcff_history.
  rewrite (column_Some _ _ _ Hc), (column_Some _ _ _ Hx). simpl.
  eexists. split; [reflexivity|]. split.
  - apply dropna_chronological, sort_index_sorted.
  - etrans; [unfold dropna; by rewrite sort_index_perm|].
    fold (dropna (make_fcff_df (zip (index cf) cs) (zip (index cf) xs)
                    (series_add (zip (index cf) cs) (zip (index cf) xs)))).
    by rewrite make_fcff_df_rows, dropna_rows.
Qed.

Lemma mean_three (a b c : Qc) : mean [a; b; c] = Fin ((a + b + c) / qc 3).
Proof.
  unfold mean, qsum. cbn [foldr length]. apply (f_equal Fin).
  qc2q. cbv [inject_Z Z.of_nat Pos.of_succ_nat Pos.succ]. field.
Qed.

Lemma mean_nonempty (l : list Qc) :
  l ≠ [] → mean l = Fin (qsum l / Qc_of_Z (Z.of_nat (length l))).
Proof. by destruct l. Qed.

(** C7.  FCFF history builder: the history is ordered oldest period first,
    it holds exactly the periods that report both an operating cash flow
    and a capital expenditure, each with free cash flow equal to the sum of
    the two, and the base FCFF is the arithmetic mean of the free cash
    flows of the three most recent of them. *)
Theorem fcff_history_spec (cf : DataFrame) (cs xs : list (option Qc)) :
  columns cf !! cfo_key = Some cs →
  columns cf !! capex_key = Some xs →
  ∃ rows base,
    fcff_history cf = Ok (rows, base)
    ∧ chronological rows
    ∧ rows ≡ₚ valid_periods (index cf) cs xs
    ∧ (∀ r, r ∈ rows →
         free_cash_flow r = cash_from_operations r + capex r)
    ∧ (∀ older r1 r2 r3, rows = older ++ [r1; r2; r3] →
         base = Fin ((free_cash_flow r1 + free_cash_flow r2
                      + free_cash_flow r3) / qc 3)).
Proof.
  intros Hc Hx.
  destruct (fcff_history_eq cf cs xs Hc Hx) as (rows & Heq & Hsorted & Hperm).
  exists rows, (mean (tail 3 (free_cash_flow <$> rows))).
  repeat split; try done.
  - intros r Hr. apply (valid_periods_fcff (index cf) cs xs).
    by rewrite <- Hperm.
  - intros older r1 r2 r3 ->.
    rewrite fmap_app.
    change (free_cash_flow <$> [r1; r2; r3])
      with [free_cash_flow r1; free_cash_flow r2; free_cash_flow r3].
    rewrite (tail_app _ [_; _; _]). apply mean_three.
Qed.

Lemma fcff_history_spec_witness :
  ∃ cs xs rows base,
    columns (transpose_div Sample.cash_flow giga) !! cfo_key = Some cs
    ∧ columns (transpose_div Sample.cash_flow giga) !! capex_key = Some xs
    ∧ fcff_history (transpose_div Sample.cash_flow giga) = Ok (rows, base)
    ∧ chronological rows
    ∧ rows ≡ₚ valid_periods Sample.fiscal_years cs xs.
Proof.
  eexists _, _.
  assert (Hc : columns (transpose_div Sample.cash_flow giga) !! cfo_key
               = Some ((fmap (M := list) (fmap (M := option) (λ x, x / giga)))
                         [Sample.bn 120; Sample.bn 90; Sample.bn 80;
                          Sample.bn 70; None]))
    by (vm_compute; reflexivity).
  assert (Hx : columns (transpose_div Sample.cash_flow giga) !! capex_key
               = Some ((fmap (M := list) (fmap (M := option) (λ x, x / giga)))
                         [Sample.bn (-40); Sample.bn (-30); Sample.bn (-20);
                          Sample.bn (-10); Sample.bn (-5)]))
    by (vm_compute; reflexivity).
  destruct (fcff_history_spec _ _ _ Hc Hx)
    as (rows & base & Heq & Hsorted & Hperm & _).
  exists rows, base. repeat split; try done.
Defined.

(** C10.  With one or two valid periods the base FCFF is the arithmetic
    mean of the free cash flows of all of them, and the history is accepted:
    the lookup of its last period succeeds. *)
Theorem base_fcff_short_history (cf : DataFrame) (cs xs : list (option Qc)) :
  columns cf !! cfo_key = Some cs →
  columns cf !! capex_key = Some xs →
  (1 ≤ length (valid_periods (index cf) cs xs) ≤ 2)%nat →
  ∃ rows base,
    fcff_history cf = Ok (rows, base)
    ∧ rows ≡ₚ valid_periods (index cf) cs xs
    ∧ base = Fin (qsum (free_cash_flow <$> rows)
                  / Qc_of_Z (Z.of_nat (length rows)))
    ∧ ∃ t, getitem_last (period <$> rows) = Ok t.
Proof.
  intros Hc Hx Hlen.
  destruct (fcff_history_eq cf cs xs Hc Hx) as (rows & Heq & _ & Hperm).
  exists rows, (mean (tail 3 (free_cash_flow <$> rows))).
  apply Permutation_length in Hperm as Hl. rewrite <- Hl in Hlen.
  repeat split; try done.
  - rewrite tail_short by (rewrite length_fmap; lia).
    rewrite mean_nonempty; [by rewrite length_fmap|].
    destruct rows; [simpl in Hlen; lia | done].
  - destruct (last (period <$> rows)) as [t|] eqn:Hlast.
    + exists t. by apply getitem_last_Ok.
    + apply last_None in Hlast. apply fmap_nil_inv in Hlast.
      subst rows. simpl in Hlen. lia.
Qed.

Lemma base_fcff_short_history_witness :
  ∃ rows,
    fcff_history (transpose_div Sample.cash_flow_short giga)
    = Ok (rows, Fin (qsum (free_cash_flow <$> rows)
                     / Qc_of_Z (Z.of_nat (length rows)))).
Proof.
  assert (Hc : columns (transpose_div Sample.cash_flow_short giga) !! cfo_key
               = Some ((fmap (M := list) (fmap (M := option) (λ x, x / giga)))
                         [Sample.bn 120; Sample.bn 90; None]))
    by (vm_compute; reflexivity).
  assert (Hx : columns (transpose_div Sample.cash_flow_short giga) !! capex_key
               = Some ((fmap (M := list) (fmap (M := option) (λ x, x / giga)))
                         [Sample.bn (-40); Sample.bn (-30); Sample.bn (-20)]))
    by (vm_compute; reflexivity).
  destruct (base_fcff_short_history _ _ _ Hc Hx)
    as (rows & base & Heq & _ & -> & _).
  { vm_compute. lia. }
  by exists rows.
Defined.

(** ** The spinner block as a whole (lines 35-100) *)

(** What a successful run went through, stage by stage. *)
Lemma compute_Ok (inp : Inputs) (ctx : Context) :
  compute inp = Ok ctx →
  ∃ last_period rf,
    fcff_history (transpose_div (cash_flow_stmt inp) giga)
    = Ok (fcff_df ctx, base_fcff ctx)
    ∧ last (period <$> fcff_df ctx) = Some last_period
    ∧ last_year ctx = year last_period
    ∧ fcff_growth_rate ctx = fcff_growth_slider inp / qc 100
    ∧ terminal_growth_rate ctx = terminal_growth_slider inp / qc 100
    ∧ market_return ctx = market_return_input inp / qc 100
    ∧ projected ctx
      = projected_fcff (base_fcff ctx) (fcff_growth_rate ctx)
                       (forecast_years inp)
    ∧ projection ctx
      = projection_df (last_year ctx) (base_fcff ctx) (fcff_growth_rate ctx)
                      (forecast_years inp)
    ∧ last (omap id (dgs10 inp)) = Some rf
    ∧ risk_free_rate ctx = rf / qc 100
    ∧ capital_structure (info inp) (transpose_div (financials inp) giga)
        (risk_free_rate ctx) (beta inp) (market_return ctx)
      = Ok (capital ctx)
    ∧ valuation (info inp) (projected ctx) (projection ctx)
        (wacc (capital ctx)) (terminal_growth_rate ctx) (forecast_years inp)
        (net_debt (capital ctx))
      = Ok (result_of ctx).
Proof.
  unfold compute. cbv zeta. intros H.
  apply bind_Ok in H as ([rows base] & Hhist & H).
  apply bind_Ok in H as (lp & Hlast & H).
  apply bind_Ok in H as (rf & Hrf & H).
  apply bind_Ok in H as (cap & Hcap & H).
  apply bind_Ok in H as (val & Hval & H).
  injection H as <-. simpl.
  apply getitem_last_Ok in Hlast. apply getitem_last_Ok in Hrf.
  exists lp, rf. repeat split; done.
Qed.

(** C8.  Insufficient data: when no period of the cash-flow statement has
    both values, the run fails at the lookup of the last period; the page
    shows the title, the introduction and the error notice, and no metric,
    chart or table. *)
Theorem no_valid_period_fails (inp : Inputs) (cs xs : list (option Qc)) :
  upper (ticker_input inp) ≠ EmptyString →
  columns (transpose_div (cash_flow_stmt inp) giga) !! cfo_key = Some cs →
  columns (transpose_div (cash_flow_stmt inp) giga) !! capex_key = Some xs →
  valid_periods (periods (cash_flow_stmt inp)) cs xs = [] →
  compute inp = Raise IndexError
  ∧ run inp = [ Title (upper (ticker_input inp));
                Intro (upper (ticker_input inp));
                ErrorNotice (upper (ticker_input inp));
                Divider; Caption ]
  ∧ Forall (λ e, shows_result e = false) (run inp).
Proof.
  intros Hticker Hc Hx Hnone.
  destruct (fcff_history_eq _ cs xs Hc Hx) as (rows & Heq & _ & Hperm).
  change (index (transpose_div (cash_flow_stmt inp) giga))
    with (periods (cash_flow_stmt inp)) in Hperm.
  rewrite Hnone in Hperm. apply Permutation_nil_r in Hperm. subst rows.
  assert (Hfail : compute inp = Raise IndexError).
  { unfold compute. cbv zeta. by rewrite Heq. }
  assert (Hrun : run inp = [ Title (upper (ticker_input inp));
                             Intro (upper (ticker_input inp));
                             ErrorNotice (upper (ticker_input inp));
                             Divider; Caption ]).
  { unfold run. cbv zeta. rewrite decide_False by done. by rewrite Hfail. }
  split; [done|]. split; [done|].
  rewrite Hrun. repeat constructor.
Qed.

Lemma no_valid_period_fails_witness :
  compute (with_cash_flow Sample.cash_flow_gaps Sample.inputs)
  = Raise IndexError
  ∧ run (with_cash_flow Sample.cash_flow_gaps Sample.inputs)
    = [Title "MSFT"; Intro "MSFT"; ErrorNotice "MSFT"; Divider; Caption].
Proof.
  assert (Hc : columns (transpose_div Sample.cash_flow_gaps giga) !! cfo_key
               = Some ((fmap (M := list) (fmap (M := option) (λ x, x / giga)))
                         [Sample.bn 120; None]))
    by (vm_compute; reflexivity).
  assert (Hx : columns (transpose_div Sample.cash_flow_gaps giga) !! capex_key
               = Some ((fmap (M := list) (fmap (M := option) (λ x, x / giga)))
                         [None; Sample.bn (-30)]))
    by (vm_compute; reflexivity).
  destruct (no_valid_period_fails
              (with_cash_flow Sample.cash_flow_gaps Sample.inputs) _ _
              ltac:(vm_compute; discriminate) Hc Hx ltac:(reflexivity))
    as (Hfail & Hrun & _).
  split; [exact Hfail | exact Hrun].
Defined.

(** ** Projection (lines 60-67) *)

Lemma projected_fcff_length base gr n : length (projected_fcff base gr n) = n.
Proof. unfold projected_fcff. by rewrite length_fmap, length_seq. Qed.

Lemma forecast_years_range_length ly n : length (forecast_years_range ly n) = n.
Proof. unfold forecast_years_range. by rewrite length_fmap, length_seq. Qed.

Lemma projected_fcff_lookup base gr n i :
  (i < n)%nat →
  projected_fcff base gr n !! i = Some (fmul base (Fin ((1 + gr) ^ S i))).
Proof.
  intros Hi. unfold projected_fcff.
  by rewrite list_lookup_fmap, lookup_seq_lt.
Qed.

Lemma forecast_years_range_lookup ly n i :
  (i < n)%nat →
  forecast_years_range ly n !! i = Some (ly + 1 + Z.of_nat i)%Z.
Proof.
  intros Hi. unfold forecast_years_range.
  by rewrite list_lookup_fmap, lookup_seq_lt.
Qed.

Lemma projection_df_length ly base gr n : length (projection_df ly base gr n) = n.
Proof.
  unfold projection_df.
  rewrite length_zip, forecast_years_range_length, projected_fcff_length. lia.
Qed.

(** The projected column of the frame is the projected list. *)
Lemma projection_df_values ly base gr n :
  snd <$> projection_df ly base gr n = projected_fcff base gr n.
Proof.
  unfold projection_df. apply snd_zip.
  rewrite forecast_years_range_length, projected_fcff_length. lia.
Qed.

Lemma projection_df_lookup ly base gr n i :
  (1 ≤ i ≤ n)%nat →
  projection_df ly base gr n !! (i - 1)%nat
  = Some ((ly + Z.of_nat i)%Z, fmul base (Fin ((1 + gr) ^ i))).
Proof.
  intros Hi. unfold projection_df.
  apply lookup_zip_with_Some. eexists _, _. split; [reflexivity|].
  rewrite forecast_years_range_lookup, projected_fcff_lookup by lia.
  replace (S (i - 1)) with i by lia.
  split; [f_equal; lia | done].
Qed.

(** C4.  Projection anchoring: year [i] of the projection carries the year
    of the last valid historical period plus [i], and the base FCFF times
    (1 + growth rate) to the power [i], a function of the base and of [i]
    alone; from a base of 100 at 10% the first three values are 110, 121
    and 133.1. *)
Theorem projection_anchoring :
  (∀ (inp : Inputs) (ctx : Context) (i : nat),
     compute inp = Ok ctx →
     (1 ≤ i ≤ forecast_years inp)%nat →
     ∃ newest,
       last (fcff_df ctx) = Some newest
       ∧ length (projection ctx) = forecast_years inp
       ∧ projection ctx !! (i - 1)%nat
         = Some ((year (period newest) + Z.of_nat i)%Z,
                 fmul (base_fcff ctx)
                      (Fin ((1 + fcff_growth_slider inp / qc 100) ^ i))))
  ∧ projected_fcff (Fin (qc 100)) (qc 0.10) 3
    = [Fin (qc 110); Fin (qc 121); Fin (qc 133.1)].
Proof.
  split.
  - intros inp ctx i Hrun Hi.
    apply compute_Ok in Hrun
      as (lp & rf & _ & Hlast & Hyear & Hgr & _ & _ & _ & Hproj & _).
    rewrite fmap_last in Hlast.
    destruct (last (fcff_df ctx)) as [newest|]; [|done].
    injection Hlast as <-. exists newest. split; [done|].
    rewrite Hproj, projection_df_length. split; [done|].
    rewrite projection_df_lookup by done. by rewrite Hyear, Hgr.
  - unfold projected_fcff. simpl.
    repeat (apply (f_equal2 (@cons float));
            [apply (f_equal Fin), Qc_is_canon; reflexivity|]).
    reflexivity.
Qed.

Lemma projection_anchoring_witness :
  ∃ ctx newest,
    compute Sample.inputs = Ok ctx
    ∧ last (fcff_df ctx) = Some newest
    ∧ projection ctx !! 2%nat
      = Some ((year (period newest) + 3)%Z,
              fmul (base_fcff ctx) (Fin ((1 + qc 14 / qc 100) ^ 3))).
Proof.
  eexists.
  assert (Hrun : compute Sample.inputs = Ok ?[ctx])
    by (vm_compute; reflexivity).
  destruct (proj1 projection_anchoring Sample.inputs _ 3%nat Hrun)
    as (newest & Hlast & _ & Hi).
  { simpl. lia. }
  exists newest. split; [exact Hrun|]. split; [exact Hlast | exact Hi].
Defined.

(** ** Discount rate (lines 72-88) *)

Lemma capital_structure_Ok info income_stmt rf b mr cap :
  capital_structure info income_stmt rf b mr = Ok cap →
  ∃ mc,
    info !! "marketCap" = Some mc
    ∧ market_cap cap = mc / giga
    ∧ total_debt cap = get info "totalDebt" 0 / giga
    ∧ cash cap = get info "totalCash" 0 / giga
    ∧ net_debt cap = total_debt cap - cash cap
    ∧ total_value cap = market_cap cap + net_debt cap
    ∧ equity_weight cap = equity_weight_of (market_cap cap) (total_value cap)
    ∧ debt_weight cap = debt_weight_of (net_debt cap) (total_value cap)
    ∧ cost_of_equity cap = rf + b * (mr - rf)
    ∧ wacc cap = equity_weight cap * cost_of_equity cap
                 + debt_weight cap * cost_of_debt cap * (1 - tax_rate).
Proof.
  unfold capital_structure. intros H.
  apply bind_Ok in H as (mc & Hmc & H). cbv zeta in H.
  destruct (proj1 (bind_Ok _ _ _) H) as (ie & Hie & Hcap).
  injection Hcap as <-. simpl.
  apply getitem_Ok in Hmc. exists mc. repeat split; done.
Qed.

(** The weights in exact arithmetic: the equity and debt weights are the
    market capitalisation and the net debt over their sum and add up to 1
    when the sum is not zero; when it is zero they are 1 and 0. *)
Theorem wacc_weight_normalization info income_stmt rf b mr (cap : Capital) :
  capital_structure info income_stmt rf b mr = Ok cap →
  total_value cap = market_cap cap + net_debt cap
  ∧ (total_value cap ≠ 0 →
       equity_weight cap = market_cap cap / total_value cap
       ∧ debt_weight cap = net_debt cap / total_value cap
       ∧ equity_weight cap + debt_weight cap = 1)
  ∧ (total_value cap = 0 → equity_weight cap = 1 ∧ debt_weight cap = 0).
Proof.
  intros H.
  apply capital_structure_Ok in H
    as (mc & _ & _ & _ & _ & _ & Htv & Hew & Hdw & _).
  split; [done|]. rewrite Hew, Hdw.
  unfold equity_weight_of, debt_weight_of. split.
  - intros Hne. rewrite !decide_False by done.
    split; [done|]. split; [done|].
    rewrite Htv in *. field. done.
  - intros Hz. by rewrite !decide_True by done.
Qed.

Lemma wacc_weight_normalization_witness :
  ∃ cap,
    capital_structure Sample.profile (transpose_div Sample.income giga)
      (qc 0.0425) (qc 1) (qc 0.09) = Ok cap
    ∧ equity_weight cap + debt_weight cap = 1.
Proof.
  eexists.
  assert (Hcap : capital_structure Sample.profile
                   (transpose_div Sample.income giga)
                   (qc 0.0425) (qc 1) (qc 0.09) = Ok ?[cap])
    by (vm_compute; reflexivity).
  destruct (wacc_weight_normalization _ _ _ _ _ _ Hcap) as (_ & Hsum & _).
  split; [exact Hcap|].
  apply Hsum. intros Hz. apply (f_equal this) in Hz. vm_compute in Hz.
  discriminate Hz.
Defined.

(** ** Base-case valuation (lines 91-100) *)

Lemma valuation_Ok info projected projection w g n nd v :
  valuation info projected projection w g n nd = Ok v →
  ∃ final,
    last projected = Some final
    ∧ info !! "sharesOutstanding" = Some (shares_outstanding v)
    ∧ discounted_fcffs v = discount w (snd <$> projection)
    ∧ terminal_value v = fdiv (fmul final (Fin (1 + g))) (w - g)
    ∧ terminal_value_discounted v = fdiv (terminal_value v) ((1 + w) ^ n)
    ∧ enterprise_value v
      = fadd (py_sum (discounted_fcffs v)) (terminal_value_discounted v)
    ∧ equity_value v = fsub (enterprise_value v) (Fin nd)
    ∧ fair_value_per_share v
      = fdiv (fmul (equity_value v) (Fin giga)) (shares_outstanding v).
Proof.
  unfold valuation. cbv zeta. intros H.
  apply bind_Ok in H as (final & Hfinal & H).
  apply bind_Ok in H as (shares & Hshares & H).
  injection H as <-. simpl.
  apply getitem_last_Ok in Hfinal. apply getitem_Ok in Hshares.
  exists final. repeat split; done.
Qed.

(** C1.  Valuation chain: the projected value of year [i] is discounted by
    (1 + wacc) to the power [i]; the terminal value is discounted by the
    power of the last year; the enterprise value is the sum of the
    discounted values plus the discounted terminal value; the equity value
    is the enterprise value minus the net debt; the fair value per share is
    the equity value, brought from billions to currency units, over the
    number of shares of the profile. *)
Theorem valuation_chain (inp : Inputs) (ctx : Context) :
  compute inp = Ok ctx →
  let v := result_of ctx in
  let w := wacc (capital ctx) in
  let n := forecast_years inp in
  length (discounted_fcffs v) = n
  ∧ (∀ i, (1 ≤ i ≤ n)%nat →
       ∃ x, projected ctx !! (i - 1)%nat = Some x
            ∧ discounted_fcffs v !! (i - 1)%nat = Some (fdiv x ((1 + w) ^ i)))
  ∧ terminal_value_discounted v = fdiv (terminal_value v) ((1 + w) ^ n)
  ∧ enterprise_value v
    = fadd (fsum (discounted_fcffs v)) (terminal_value_discounted v)
  ∧ equity_value v = fsub (enterprise_value v) (Fin (net_debt (capital ctx)))
  ∧ info inp !! "sharesOutstanding" = Some (shares_outstanding v)
  ∧ fair_value_per_share v
    = fdiv (fmul (equity_value v) (Fin giga)) (shares_outstanding v).
Proof.
  intros Hrun v w n.
  apply compute_Ok in Hrun
    as (lp & rf & _ & _ & _ & _ & _ & _ & Hprojected & Hproj & _ & _ & _ & Hval).
  apply valuation_Ok in Hval
    as (final & _ & Hshares & Hdisc & _ & Htvd & Hev & Heq & Hfair).
  fold v in Hshares, Hdisc, Htvd, Hev, Heq, Hfair. fold w in Hdisc, Htvd.
  fold n in Hprojected, Hproj, Htvd.
  rewrite Hproj, projection_df_values, <- Hprojected in Hdisc.
  assert (Hlen : length (projected ctx) = n)
    by (by rewrite Hprojected, projected_fcff_length).
  repeat split; try done.
  - by rewrite Hdisc, discount_length.
  - intros i Hi.
    destruct (projected ctx !! (i - 1)%nat) as [x|] eqn:Hx.
    + exists x. split; [done|].
      rewrite Hdisc, discount_lookup, Hx.
      replace (S (i - 1)) with i by lia. reflexivity.
    + apply lookup_ge_None in Hx. lia.
  - by rewrite <- py_sum_fsum.
Qed.

Lemma valuation_chain_witness :
  ∃ ctx,
    compute Sample.inputs = Ok ctx
    ∧ fair_value_per_share (result_of ctx)
      = fdiv (fmul (equity_value (result_of ctx)) (Fin giga))
             (qc 7430000000).
Proof.
  eexists.
  assert (Hrun : compute Sample.inputs = Ok ?[ctx])
    by (vm_compute; reflexivity).
  destruct (valuation_chain _ _ Hrun) as (_ & _ & _ & _ & _ & Hshares & Hfair).
  split; [exact Hrun|].
  etrans; [exact Hfair|]. apply (f_equal (fdiv _)).
  apply Qc_is_canon. vm_compute. reflexivity.
Defined.

(** ** Company profile (lines 72-75 and 99) *)

Lemma capital_structure_insert_total_debt info income_stmt rf b mr :
  info !! "totalDebt" = None →
  capital_structure (<["totalDebt" := 0]> info) income_stmt rf b mr
  = capital_structure info income_stmt rf b mr.
Proof.
  intros H. unfold capital_structure, getitem, get.
  rewrite lookup_insert_eq, !lookup_insert_ne by done. by rewrite H.
Qed.

Lemma capital_structure_insert_total_cash info income_stmt rf b mr :
  info !! "totalCash" = None →
  capital_structure (<["totalCash" := 0]> info) income_stmt rf b mr
  = capital_structure info income_stmt rf b mr.
Proof.
  intros H. unfold capital_structure, getitem, get.
  rewrite lookup_insert_eq, !lookup_insert_ne by done. by rewrite H.
Qed.

Lemma valuation_insert info k x projected projection w g n nd :
  k ≠ "sharesOutstanding" →
  valuation (<[k := x]> info) projected projection w g n nd
  = valuation info projected projection w g n nd.
Proof.
  intros H. unfold valuation, getitem. by rewrite lookup_insert_ne.
Qed.

(** The claim of C9 fails for the market capitalisation: a profile that
    lacks it makes the run fail with a key error, although the same run
    with a market capitalisation of 0 goes through. *)
Lemma market_cap_does_not_default :
  Sample.profile_no_cap !! "marketCap" = None
  ∧ compute (with_info Sample.profile_no_cap Sample.inputs)
    = Raise (KeyError "marketCap")
  ∧ (∃ ctx, compute (with_info (<["marketCap" := 0]> Sample.profile_no_cap)
                               Sample.inputs) = Ok ctx).
Proof.
  split; [reflexivity|]. split; [vm_compute; reflexivity|].
  eexists. vm_compute. reflexivity.
Qed.

(** ** Inversion and totality of the stages *)

Lemma column_None (df : DataFrame) k :
  columns df !! k = None → column df k = Raise (KeyError k).
Proof. intros H. unfold column, getitem. by rewrite H. Qed.

Lemma transpose_div_lookup (s : Statement) (d : Qc) k :
  columns (transpose_div s d) !! k
  = (fmap (M := list) (fmap (M := option) (λ x, x / d))) <$> items s !! k.
Proof. unfold transpose_div. simpl. apply lookup_fmap. Qed.

Lemma fcff_history_Ok (cf : DataFrame) rows base :
  fcff_history cf = Ok (rows, base) →
  ∃ cs xs,
    columns cf !! cfo_key = Some cs
    ∧ columns cf !! capex_key = Some xs
    ∧ chronological rows
    ∧ rows ≡ₚ valid_periods (index cf) cs xs
    ∧ base = mean (tail 3 (free_cash_flow <$> rows)).
Proof.
  intros H.
  destruct (columns cf !! cfo_key) as [cs|] eqn:Hc.
  2:{ unfold fcff_history in H. by rewrite (column_None _ _ Hc) in H. }
  destruct (columns cf !! capex_key) as [xs|] eqn:Hx.
  2:{ unfold fcff_history in H.
      by rewrite (column_Some _ _ _ Hc), (column_None _ _ Hx) in H. }
  destruct (fcff_history_eq cf cs xs Hc Hx) as (rows' & Heq & Hsorted & Hperm).
  rewrite Heq in H. injection H as <- <-.
  by exists cs, xs.
Qed.

Lemma div_giga_pos (x : Qc) : 0 < x / giga ↔ 0 < x.
Proof.
  unfold giga. split; intros H; qc2q; unfold Qdiv in *;
    change (/ 1000000000)%Q with (1 # 1000000000)%Q in *; lra.
Qed.

(** The interest expense of a successful capital-structure stage. *)
Lemma capital_structure_interest info income_stmt rf b mr cap :
  capital_structure info income_stmt rf b mr = Ok cap →
  (0 < total_debt cap →
     ∃ s x, column income_stmt "Interest Expense" = Ok s
            ∧ last (series_dropna s) = Some x
            ∧ interest_expense cap = Qcabs x
            ∧ cost_of_debt cap = Qcabs x / total_debt cap)
  ∧ (¬ 0 < total_debt cap →
     interest_expense cap = 0 ∧ cost_of_debt cap = qc 0.02).
Proof.
  unfold capital_structure. intros H.
  apply bind_Ok in H as (mc & Hmc & H). cbv zeta in H.
  destruct (proj1 (bind_Ok _ _ _) H) as (ie & Hie & Hcap).
  injection Hcap as <-. cbn [total_debt interest_expense cost_of_debt].
  destruct (decide (0 < get info "totalDebt" 0 / giga)) as [Hd|Hd].
  - split; [|done]. intros _.
    apply bind_Ok in Hie as (s & Hs & Hie).
    apply bind_Ok in Hie as (x & Hx & Hie). injection Hie as <-.
    apply getitem_last_Ok in Hx. by exists s, x.
  - split; [done|]. intros _. by injection Hie as <-.
Qed.

Lemma capital_structure_total info income_stmt rf b mr :
  is_Some (info !! "marketCap") →
  (0 < get info "totalDebt" 0 →
     ∃ s, column income_stmt "Interest Expense" = Ok s
          ∧ series_dropna s ≠ []) →
  ∃ cap, capital_structure info income_stmt rf b mr = Ok cap.
Proof.
  intros [mc Hmc] Hint. unfold capital_structure, getitem. rewrite Hmc.
  cbn [mbind result_bind]. cbv zeta.
  destruct (decide (0 < get info "totalDebt" 0 / giga)) as [Hd|Hd].
  - destruct (Hint (proj1 (div_giga_pos _) Hd)) as (s & -> & Hne).
    cbn [mbind result_bind]. unfold getitem_last.
    destruct (last (series_dropna s)) as [x|] eqn:Hlast.
    + cbn [mbind result_bind]. by eexists.
    + by apply last_None in Hlast.
  - cbn [mbind result_bind]. by eexists.
Qed.

Lemma valuation_total info projected projection w g n nd :
  projected ≠ [] → is_Some (info !! "sharesOutstanding") →
  ∃ v, valuation info projected projection w g n nd = Ok v.
Proof.
  intros Hne [sh Hsh]. unfold valuation, getitem, getitem_last.
  destruct (last projected) as [final|] eqn:Hlast.
  - cbn [mbind result_bind]. cbv zeta. rewrite Hsh.
    cbn [mbind result_bind]. by eexists.
  - by apply last_None in Hlast.
Qed.

Lemma projected_fcff_nil base gr n : projected_fcff base gr n = [] ↔ n = 0%nat.
Proof.
  split; [|by intros ->].
  intros H. apply (f_equal length) in H.
  by rewrite projected_fcff_length in H.
Qed.

(** A successful run had sufficient data. *)
Lemma compute_Ok_sufficient (inp : Inputs) (ctx : Context) :
  compute inp = Ok ctx → sufficient inp.
Proof.
  intros Hrun.
  apply compute_Ok in Hrun
    as (lp & rf & Hhist & Hlast & _ & _ & _ & _ & Hprojd & _ & Hrf & _
        & Hcap & Hval).
  apply fcff_history_Ok in Hhist as (cs & xs & Hc & Hx & _ & Hperm & _).
  pose proof (capital_structure_interest _ _ _ _ _ _ Hcap) as [Hint _].
  apply capital_structure_Ok in Hcap as (mc & Hmc & _ & Htd & _).
  apply valuation_Ok in Hval as (final & Hfinal & Hshares & _).
  unfold sufficient. repeat split.
  - exists cs, xs. split; [done|]. split; [done|].
    intros Hnil. change (index (transpose_div (cash_flow_stmt inp) giga))
      with (periods (cash_flow_stmt inp)) in Hperm.
    rewrite Hnil in Hperm. apply Permutation_nil_r in Hperm.
    by rewrite Hperm in Hlast.
  - exists rf. apply last_Some_elem_of in Hrf.
    apply list_elem_of_omap in Hrf as (o & Ho & Hid). simpl in Hid.
    by subst o.
  - by exists mc.
  - intros Hd. destruct Hint as (s & x & Hs & Hx' & _).
    { rewrite Htd. by apply div_giga_pos. }
    exists s. split; [done|]. intros Hnil. by rewrite Hnil in Hx'.
  - intros Hz. rewrite Hprojd, Hz in Hfinal. done.
  - by eexists.
Qed.

(** Sufficient data make the run succeed. *)
Lemma sufficient_compute_Ok (inp : Inputs) :
  sufficient inp → ∃ ctx, compute inp = Ok ctx.
Proof.
  intros ((cs & xs & Hc & Hx & Hvalid) & (r & Hr) & Hmc & Hint & Hn & Hsh).
  destruct (fcff_history_eq _ cs xs Hc Hx) as (rows & Hhist & _ & Hperm).
  unfold cash_flow_frame in Hhist.
  assert (∃ lp, getitem_last (period <$> rows) = Ok lp) as [lp Hlast].
  { unfold getitem_last.
    destruct (last (period <$> rows)) as [lp|] eqn:Hlast; [by eexists|].
    apply last_None, fmap_nil_inv in Hlast. subst rows.
    symmetry in Hperm. by apply Permutation_nil_r in Hperm. }
  assert (∃ rf, getitem_last (omap id (dgs10 inp)) = Ok rf) as [rf Hrf].
  { unfold getitem_last.
    destruct (last (omap id (dgs10 inp))) as [rf|] eqn:Hrf; [by eexists|].
    apply last_None in Hrf.
    assert (Hin : r ∈ omap id (dgs10 inp))
      by (apply list_elem_of_omap; by exists (Some r)).
    rewrite Hrf in Hin. by apply elem_of_nil in Hin. }
  unfold compute. cbv zeta. rewrite Hhist. cbn [mbind result_bind].
  rewrite Hlast. cbn [mbind result_bind].
  rewrite Hrf. cbn [mbind result_bind].
  destruct (capital_structure_total (info inp)
              (transpose_div (financials inp) giga) (rf / qc 100)
              (beta inp) (market_return_input inp / qc 100) Hmc Hint)
    as [cap ->].
  cbn [mbind result_bind].
  destruct (valuation_total (info inp)
              (projected_fcff (mean (tail 3 (free_cash_flow <$> rows)))
                 (fcff_growth_slider inp / qc 100) (forecast_years inp))
              (projection_df (year lp)
                 (mean (tail 3 (free_cash_flow <$> rows)))
                 (fcff_growth_slider inp / qc 100) (forecast_years inp))
              (wacc cap) (terminal_growth_slider inp / qc 100)
              (forecast_years inp) (net_debt cap)) as [v ->]; [|done|].
  { intros Hnil. by apply projected_fcff_nil in Hnil. }
  cbn [mbind result_bind]. by eexists.
Qed.

(** ** Company profile: the defaults *)

Lemma zero_div_giga : 0 / giga = 0.
Proof. apply Qc_is_canon. reflexivity. Qed.

(** C9, amended.  An absent total debt or total cash counts as 0: the run
    is the one of the profile with that 0 written in, and when the rest of
    the data are sufficient it goes through, with a total debt (a cash
    position) of 0.  An absent market capitalisation, like an absent
    number of shares, makes the run fail. *)
Theorem profile_field_defaulting (inp : Inputs) :
  (info inp !! "totalDebt" = None →
     compute inp = compute (with_info (<["totalDebt" := 0]> (info inp)) inp)
     ∧ (sufficient inp →
        ∃ ctx, compute inp = Ok ctx ∧ total_debt (capital ctx) = 0))
  ∧ (info inp !! "totalCash" = None →
     compute inp = compute (with_info (<["totalCash" := 0]> (info inp)) inp)
     ∧ (sufficient inp →
        ∃ ctx, compute inp = Ok ctx ∧ cash (capital ctx) = 0))
  ∧ (info inp !! "marketCap" = None → ∀ ctx, compute inp ≠ Ok ctx)
  ∧ (info inp !! "sharesOutstanding" = None → ∀ ctx, compute inp ≠ Ok ctx).
Proof.
  split; [|split; [|split]].
  - intros H. split.
    + unfold compute. cbn [with_info info forecast_years
        fcff_growth_slider terminal_growth_slider market_return_input
        financials balance_sheet_stmt cash_flow_stmt dgs10 beta].
      cbv zeta.
      destruct (fcff_history _) as [[rows base]|e]; [|done].
      cbn [mbind result_bind].
      destruct (getitem_last (period <$> rows)) as [lp|e]; [|done].
      cbn [mbind result_bind].
      destruct (getitem_last (omap id (dgs10 inp))) as [rf|e]; [|done].
      cbn [mbind result_bind].
      rewrite (capital_structure_insert_total_debt _ _ _ _ _ H).
      destruct (capital_structure _ _ _ _ _) as [cap|e]; [|done].
      cbn [mbind result_bind].
      by rewrite valuation_insert.
    + intros Hdata. destruct (sufficient_compute_Ok inp Hdata) as [ctx Hrun].
      exists ctx. split; [exact Hrun|].
      apply compute_Ok in Hrun
        as (lp & rf & _ & _ & _ & _ & _ & _ & _ & _ & _ & _ & Hcap & _).
      apply capital_structure_Ok in Hcap as (mc & _ & _ & Htd & _).
      rewrite Htd. unfold get. rewrite H. exact zero_div_giga.
  - intros H. split.
    + unfold compute. cbn [with_info info forecast_years
        fcff_growth_slider terminal_growth_slider market_return_input
        financials balance_sheet_stmt cash_flow_stmt dgs10 beta].
      cbv zeta.
      destruct (fcff_history _) as [[rows base]|e]; [|done].
      cbn [mbind result_bind].
      destruct (getitem_last (period <$> rows)) as [lp|e]; [|done].
      cbn [mbind result_bind].
      destruct (getitem_last (omap id (dgs10 inp))) as [rf|e]; [|done].
      cbn [mbind result_bind].
      rewrite (capital_structure_insert_total_cash _ _ _ _ _ H).
      destruct (capital_structure _ _ _ _ _) as [cap|e]; [|done].
      cbn [mbind result_bind].
      by rewrite valuation_insert.
    + intros Hdata. destruct (sufficient_compute_Ok inp Hdata) as [ctx Hrun].
      exists ctx. split; [exact Hrun|].
      apply compute_Ok in Hrun
        as (lp & rf & _ & _ & _ & _ & _ & _ & _ & _ & _ & _ & Hcap & _).
      apply capital_structure_Ok in Hcap as (mc & _ & _ & _ & Hcash & _).
      rewrite Hcash. unfold get. rewrite H. exact zero_div_giga.
  - intros H ctx Hrun.
    apply compute_Ok in Hrun
      as (lp & rf & _ & _ & _ & _ & _ & _ & _ & _ & _ & _ & Hcap & _).
    apply capital_structure_Ok in Hcap as (mc & Hmc & _). congruence.
  - intros H ctx Hrun.
    apply compute_Ok in Hrun
      as (lp & rf & _ & _ & _ & _ & _ & _ & _ & _ & _ & _ & _ & Hval).
    apply valuation_Ok in Hval as (final & _ & Hshares & _). congruence.
Qed.

Lemma profile_field_defaulting_witness :
  (∃ ctx, compute (with_info Sample.profile_no_total_debt Sample.inputs)
          = Ok ctx
          ∧ total_debt (capital ctx) = 0)
  ∧ (∃ ctx, compute (with_info Sample.profile_no_total_cash Sample.inputs)
            = Ok ctx
            ∧ cash (capital ctx) = 0)
  ∧ (∀ ctx, compute (with_info Sample.profile_no_cap Sample.inputs) ≠ Ok ctx)
  ∧ (∀ ctx, compute (with_info Sample.profile_no_shares Sample.inputs)
            ≠ Ok ctx).
Proof.
  split; [|split; [|split]].
  - destruct (proj1 (profile_field_defaulting
                (with_info Sample.profile_no_total_debt Sample.inputs)))
      as [_ Hgoes]; [reflexivity|].
    apply Hgoes. eapply compute_Ok_sufficient. vm_compute. reflexivity.
  - destruct (proj1 (proj2 (profile_field_defaulting
                (with_info Sample.profile_no_total_cash Sample.inputs))))
      as [_ Hgoes]; [reflexivity|].
    apply Hgoes. eapply compute_Ok_sufficient. vm_compute. reflexivity.
  - apply (proj1 (proj2 (proj2 (profile_field_defaulting
                    (with_info Sample.profile_no_cap Sample.inputs))))).
    reflexivity.
  - apply (proj2 (proj2 (proj2 (profile_field_defaulting
                    (with_info Sample.profile_no_shares Sample.inputs))))).
    reflexivity.
Defined.

(** ** Rounding and labels *)

(** Rounding to an integer moves a number by at most one half. *)
Lemma rint_bound (y : Qc) :
  y - qc (1 # 2) ≤ Qc_of_Z (rint y) ∧ Qc_of_Z (rint y) ≤ y + qc (1 # 2).
Proof.
  unfold rint.
  pose proof (Qfloor_le y) as Hlo. pose proof (Qlt_floor y) as Hhi.
  set (f := Qfloor y) in *.
  rewrite inject_Z_plus in Hhi. change (inject_Z 1) with 1%Q in *.
  clearbody f.
  destruct (Qccompare _ _) eqn:Hc.
  - apply Qceq_alt in Hc.
    destruct (Z.even f); qc2q; rewrite ?inject_Z_plus;
      change (inject_Z 1) with 1%Q in *; split; lra.
  - apply Qclt_alt in Hc. qc2q. split; lra.
  - apply Qcgt_alt in Hc. qc2q. rewrite ?inject_Z_plus.
    change (inject_Z 1) with 1%Q in *. split; lra.
Qed.

Lemma ten_pow_1 : qc 10 ^ 1 = qc 10.
Proof. apply Qc_is_canon. reflexivity. Qed.

(** Two rates half a percentage point apart, or more, get different
    labels. *)
Lemma label_apart (x y : Qc) :
  x + qc 0.005 ≤ y ∨ y + qc 0.005 ≤ x → label x ≠ label y.
Proof.
  assert (Hmain : ∀ a b, a + qc 0.005 ≤ b → label a ≠ label b).
  { intros a b Hab Heq. unfold label, round_q in Heq.
    rewrite ten_pow_1 in Heq.
    assert (H10 : qc 10 ≠ 0) by qc_lra.
    apply (f_equal (λ z, z * qc 10)) in Heq. cbv beta in Heq.
    rewrite !Qcdiv_mul_cancel in Heq by done.
    apply Qc_of_Z_inj in Heq.
    pose proof (rint_bound (a * qc 100 * qc 10)) as [_ Ha].
    pose proof (rint_bound (b * qc 100 * qc 10)) as [Hb _].
    rewrite Heq in Ha.
    assert (H : b * qc 100 * qc 10 - qc (1 # 2)
                ≤ a * qc 100 * qc 10 + qc (1 # 2))
      by (etrans; eassumption).
    clear Ha Hb Heq. qc_lra. }
  intros [H|H]; [by apply Hmain|].
  intros Heq. by apply (Hmain _ _ H).
Qed.

Lemma wacc_range_eq (w : Qc) :
  wacc_range w = [w - qc 0.01; w - qc 0.005; w; w + qc 0.005; w + qc 0.01].
Proof.
  unfold wacc_range, arange.
  assert (Hn : (w + qc 0.015 - (w - qc 0.01)) / qc 0.005 = qc 5)
    by (qc2q; field).
  rewrite Hn. change (Z.to_nat (Qceiling (qc 5))) with 5%nat.
  cbn [seq fmap list_fmap].
  repeat (apply (f_equal2 (@cons Qc)); [qc_lra|]).
  reflexivity.
Qed.

Lemma g_range_eq :
  g_range = [qc 0.035; qc 0.04; qc 0.045; qc 0.05; qc 0.055].
Proof.
  unfold g_range, arange.
  change (Z.to_nat (Qceiling ((qc 0.06 - qc 0.035) / qc 0.005))) with 5%nat.
  cbn [seq fmap list_fmap].
  repeat (apply (f_equal2 (@cons Qc)); [qc_lra|]).
  reflexivity.
Qed.

Lemma wacc_in_wacc_range (w : Qc) : w ∈ wacc_range w.
Proof. rewrite wacc_range_eq. set_solver. Qed.

Ltac label_cases Hx Hy :=
  repeat (apply elem_of_cons in Hx as [->|Hx]);
  try (apply elem_of_nil in Hx; destruct Hx);
  repeat (apply elem_of_cons in Hy as [->|Hy]);
  try (apply elem_of_nil in Hy; destruct Hy);
  intros Heq; try reflexivity; exfalso; revert Heq; apply label_apart;
  first [left; qc_lra | right; qc_lra].

(** The rows of the grid have pairwise different labels. *)
Lemma label_inj_wacc_range (wacc x y : Qc) :
  x ∈ wacc_range wacc → y ∈ wacc_range wacc → label x = label y → x = y.
Proof. rewrite wacc_range_eq. intros Hx Hy. label_cases Hx Hy. Qed.

(** So have its columns. *)
Lemma label_inj_g_range (x y : Qc) :
  x ∈ g_range → y ∈ g_range → label x = label y → x = y.
Proof. rewrite g_range_eq. intros Hx Hy. label_cases Hx Hy. Qed.

(** ** Loops over the grid *)

Lemma for_each_app {A S} (l k : list A) (body : A → S → result S) (s : S) :
  for_each (l ++ k) body s = for_each l body s ≫= for_each k body.
Proof.
  revert s. induction l as [|x l IH]; intros s; simpl; [done|].
  destruct (body x s) as [s'|e]; simpl; [apply IH | done].
Qed.

Lemma for_each_map {A B S} (h : A → B) (l : list A)
    (body : B → S → result S) (s : S) :
  for_each (map h l) body s = for_each l (λ x, body (h x)) s.
Proof.
  revert s. induction l as [|x l IH]; intros s; simpl; [done|].
  destruct (body (h x) s) as [s'|e]; simpl; [apply IH | done].
Qed.

(** The two nested loops visit the pairs of [list_prod], in its order. *)
Lemma for_each_nested {A B S} (l : list A) (k : list B)
    (body : A → B → S → result S) (s : S) :
  for_each l (λ x s', for_each k (body x) s') s
  = for_each (list_prod l k) (λ p, body p.1 p.2) s.
Proof.
  revert s. induction l as [|x l IH]; intros s; simpl; [done|].
  rewrite for_each_app, for_each_map. simpl.
  destruct (for_each k (body x) s) as [s'|e]; simpl; [apply IH | done].
Qed.

(** The body of the inner loop stores [written_cell] under the labels. *)
Lemma sensitivity_step_written projected projection n nd shares w g df :
  sensitivity_step projected projection n nd shares w g df
  = written_cell projected projection n nd shares w g
    ≫= λ c, Ok (loc_set df (label w) (label g) c).
Proof.
  unfold sensitivity_step, written_cell.
  destruct (decide (w ≤ g)); [done|].
  by destruct (getitem_last projected).
Qed.

(** A loop that stores [val x] under [key x] for every [x] of a list:
    when no two elements with the same key disagree on the value, every
    element finds its value under its key at the end, whatever the order
    of the stores; keys that are not visited keep their cell. *)
Lemma for_each_store {A} (key : A → Qc * Qc) (val : A → result cell)
    (l : list A) (df0 df : Grid) :
  for_each l (λ x d, val x ≫= λ c, Ok (loc_set d (key x).1 (key x).2 c)) df0
  = Ok df →
  (∀ x y, x ∈ l → y ∈ l → key x = key y → val x = val y) →
  row_labels df = row_labels df0
  ∧ col_labels df = col_labels df0
  ∧ (∀ x, x ∈ l → ∃ c, val x = Ok c ∧ cells df !! key x = Some c)
  ∧ (∀ k, (∀ x, x ∈ l → key x ≠ k) → cells df !! k = cells df0 !! k).
Proof.
  revert df0. induction l as [|x l IH]; intros df0 Hrun Hagree.
  - injection Hrun as <-. repeat split; try done.
    intros x Hx. by apply elem_of_nil in Hx.
  - simpl in Hrun. apply bind_Ok in Hrun as (df1 & Hstep & Hrest).
    apply bind_Ok in Hstep as (c & Hc & Hdf1). injection Hdf1 as <-.
    destruct (IH _ Hrest) as (Hrows & Hcols & Hin & Hout).
    { intros a b Ha Hb. apply Hagree; by apply list_elem_of_further. }
    split; [done|]. split; [done|]. split.
    + intros a Ha. apply elem_of_cons in Ha as [->|Ha]; [|by apply Hin].
      destruct (decide (key x ∈ key <$> l)) as [Hk|Hk].
      * apply list_elem_of_fmap in Hk as (b & Hkb & Hb).
        destruct (Hin b Hb) as (c' & Hc' & Hlook).
        exists c'. split; [|by rewrite Hkb].
        rewrite <- Hc'. apply Hagree; [left | by right | done].
      * exists c. split; [done|].
        rewrite Hout.
        -- simpl. destruct (key x) as [r k]. apply lookup_insert_eq.
        -- intros b Hb Heq. apply Hk. rewrite <- Heq.
           by apply list_elem_of_fmap_2.
    + intros k Hk. rewrite Hout.
      * simpl. apply lookup_insert_ne.
        destruct (key x) as [r k'] eqn:Hkx. simpl.
        rewrite <- Hkx. apply Hk. left.
      * intros b Hb. apply Hk. by right.
Qed.

(** The cells of the finished grid: each pair of a row rate and a column
    rate finds under its labels what the loop body computed for it. *)
Lemma sensitivity_cells projected projection n nd shares wacc df :
  sensitivity projected projection n nd shares wacc = Ok df →
  row_labels df = label <$> wacc_range wacc
  ∧ col_labels df = label <$> g_range
  ∧ ∀ w g, w ∈ wacc_range wacc → g ∈ g_range →
      ∃ c, written_cell projected projection n nd shares w g = Ok c
           ∧ cells df !! (label w, label g) = Some c.
Proof.
  unfold sensitivity. cbv zeta. rewrite for_each_nested. intros Hrun.
  assert (Hbody :
    for_each (list_prod (wacc_range wacc) g_range)
      (λ p d, written_cell projected projection n nd shares p.1 p.2
              ≫= λ c, Ok (loc_set d (label p.1, label p.2).1
                                    (label p.1, label p.2).2 c))
      (new_grid (label <$> wacc_range wacc) (label <$> g_range))
    = Ok df).
  { rewrite <- Hrun. clear Hrun.
    generalize (new_grid (label <$> wacc_range wacc) (label <$> g_range)).
    induction (list_prod (wacc_range wacc) g_range) as [|p l IH];
      intros d; simpl; [done|].
    rewrite sensitivity_step_written.
    destruct (written_cell _ _ _ _ _ _ _) as [c|e]; simpl; [apply IH | done]. }
  apply (for_each_store (λ p : Qc * Qc, (label p.1, label p.2))
           (λ p, written_cell projected projection n nd shares p.1 p.2))
    in Hbody as (Hrows & Hcols & Hin & _).
  - split; [done|]. split; [done|].
    intros w g Hw Hg.
    apply (Hin (w, g)). apply list_elem_of_In, in_prod; by apply list_elem_of_In.
  - intros [w g] [w' g'] Hp Hp' Heq.
    apply list_elem_of_In, in_prod_iff in Hp as [Hw Hg].
    apply list_elem_of_In, in_prod_iff in Hp' as [Hw' Hg'].
    apply list_elem_of_In in Hw, Hg, Hw', Hg'.
    pose proof (f_equal fst Heq) as Hlw. pose proof (f_equal snd Heq) as Hlg.
    cbn [fst snd] in Hlw, Hlg |- *.
    assert (w = w') as -> by (by apply (label_inj_wacc_range wacc)).
    assert (g = g') as -> by (by apply label_inj_g_range).
    reflexivity.
Qed.

Lemma for_each_total {A S} (l : list A) (body : A → S → result S) (s : S) :
  (∀ x s', x ∈ l → ∃ s'', body x s' = Ok s'') →
  ∃ s', for_each l body s = Ok s'.
Proof.
  revert s. induction l as [|x l IH]; intros s Hbody; simpl; [by eexists|].
  destruct (Hbody x s) as [s1 ->]; [left|]. simpl.
  apply IH. intros y s' Hy. apply Hbody. by right.
Qed.

(** With a projection at hand the grid is always built. *)
Lemma sensitivity_total projected projection n nd shares wacc :
  projected ≠ [] →
  ∃ df, sensitivity projected projection n nd shares wacc = Ok df.
Proof.
  intros Hne. unfold sensitivity. cbv zeta. rewrite for_each_nested.
  apply for_each_total. intros [w g] d _. cbn [fst snd].
  rewrite sensitivity_step_written. unfold written_cell.
  destruct (decide (w ≤ g)); [by eexists|].
  destruct projected as [|x l] using rev_ind; [done|].
  unfold getitem_last. rewrite last_snoc. by eexists.
Qed.

(** ** Sensitivity grid in exact arithmetic *)

(** The sentinel in exact arithmetic: a cell of the grid whose row rate is
    at most its column rate holds the N/A marker, not a number. *)
Theorem sensitivity_sentinel projected projection n nd shares wacc
    (df : Grid) (w g : Qc) :
  sensitivity projected projection n nd shares wacc = Ok df →
  w ∈ wacc_range wacc → g ∈ g_range → w ≤ g →
  label w ∈ row_labels df
  ∧ label g ∈ col_labels df
  ∧ cells df !! (label w, label g) = Some NA.
Proof.
  intros Hrun Hw Hg Hle.
  apply sensitivity_cells in Hrun as (Hrows & Hcols & Hcells).
  rewrite Hrows, Hcols.
  split; [by apply list_elem_of_fmap_2|].
  split; [by apply list_elem_of_fmap_2|].
  destruct (Hcells w g Hw Hg) as (c & Hc & Hlook).
  unfold written_cell in Hc. rewrite decide_True in Hc by done.
  by injection Hc as <-.
Qed.

Lemma sensitivity_sentinel_witness :
  ∃ df,
    sensitivity [Fin (qc 100)] [(2025%Z, Fin (qc 100))] 1 (qc 0) (qc 1)
                (qc 0.04) = Ok df
    ∧ cells df !! (label (qc 0.04), label (qc 0.045)) = Some NA.
Proof.
  destruct (sensitivity_total [Fin (qc 100)] [(2025%Z, Fin (qc 100))] 1
              (qc 0) (qc 1) (qc 0.04)) as [df Hrun]; [done|].
  exists df. split; [exact Hrun|].
  apply (sensitivity_sentinel _ _ _ _ _ _ _ (qc 0.04) (qc 0.045) Hrun).
  - apply wacc_in_wacc_range.
  - rewrite g_range_eq. do 2 apply list_elem_of_further. apply list_elem_of_here.
  - vm_compute. discriminate.
Defined.

(** Above the diagonal, the loop body computes what the base-case
    valuation computes at the cell's two rates. *)
Lemma written_cell_valuation info projected projection n nd shares w g :
  info !! "sharesOutstanding" = Some shares →
  g < w →
  written_cell projected projection n nd shares w g
  = valuation info projected projection w g n nd
    ≫= λ v, Ok (Value (round (fair_value_per_share v) 2)).
Proof.
  intros Hshares Hlt. unfold written_cell, valuation, getitem.
  rewrite decide_False by (by apply Qclt_not_le).
  rewrite Hshares. by destruct (getitem_last projected).
Qed.

(** After a successful valuation the grid is always built. *)
Lemma sensitivity_of_total (inp : Inputs) (ctx : Context) :
  compute inp = Ok ctx → ∃ df, sensitivity_of inp ctx = Ok df.
Proof.
  intros Hrun.
  apply compute_Ok in Hrun
    as (lp & rf & _ & _ & _ & _ & _ & _ & _ & _ & _ & _ & _ & Hval).
  apply valuation_Ok in Hval as (final & Hfinal & _).
  apply sensitivity_total. intros Hnil. by rewrite Hnil in Hfinal.
Qed.

(** The page of a successful run: every section, and no error notice. *)
Lemma run_Ok (inp : Inputs) (ctx : Context) :
  upper (ticker_input inp) ≠ EmptyString →
  compute inp = Ok ctx →
  ∃ df,
    sensitivity_of inp ctx = Ok df
    ∧ run inp
      = [Title (upper (ticker_input inp)); Intro (upper (ticker_input inp))]
        ++ metrics inp ctx ++ chart ctx
        ++ [Subheader "Sensitivity Analysis"; Dataframe df; Divider; Caption].
Proof.
  intros Hticker Hrun.
  destruct (sensitivity_of_total _ _ Hrun) as [df Hdf].
  exists df. split; [done|].
  unfold run. cbv zeta. rewrite decide_False by done.
  rewrite Hrun, Hdf. by rewrite <- !app_assoc.
Qed.

Lemma metrics_fair_value (inp : Inputs) (ctx : Context) :
  Metric "Fair Value per Share"
         (Dollars (fair_value_per_share (result_of ctx)))
  ∈ metrics inp ctx.
Proof. apply list_elem_of_lookup. by exists 19%nat. Qed.

Lemma run_Ok_no_error (inp : Inputs) (ctx : Context) :
  upper (ticker_input inp) ≠ EmptyString →
  compute inp = Ok ctx →
  Forall (λ e, is_error_notice e = false) (run inp).
Proof.
  intros Hticker Hrun.
  destruct (run_Ok _ _ Hticker Hrun) as (df & _ & ->).
  unfold metrics, chart. cbv zeta.
  destruct (decide (0 ≤ net_debt (capital ctx))); repeat constructor.
Qed.

(** The recomputation in exact arithmetic: a cell of the grid whose row
    rate is above its column rate holds the fair value per share of the
    base-case valuation run afresh at these two rates over the same
    projection, rounded to two decimals; the cell at the base rates holds
    the rounded base-case fair value per share. *)
Theorem sensitivity_recomputation (inp : Inputs) (ctx : Context) (df : Grid) :
  compute inp = Ok ctx →
  sensitivity_of inp ctx = Ok df →
  (∀ w g, w ∈ wacc_range (wacc (capital ctx)) → g ∈ g_range → g < w →
     ∃ v, valuation (info inp) (projected ctx) (projection ctx) w g
            (forecast_years inp) (net_debt (capital ctx)) = Ok v
          ∧ cells df !! (label w, label g)
            = Some (Value (round (fair_value_per_share v) 2)))
  ∧ (terminal_growth_rate ctx ∈ g_range →
     terminal_growth_rate ctx < wacc (capital ctx) →
     cells df !! (label (wacc (capital ctx)),
                  label (terminal_growth_rate ctx))
     = Some (Value (round (fair_value_per_share (result_of ctx)) 2))).
Proof.
  intros Hrun Hgrid.
  apply compute_Ok in Hrun
    as (lp & rf & _ & _ & _ & _ & _ & _ & _ & _ & _ & _ & _ & Hval).
  pose proof Hval as Hval'.
  apply valuation_Ok in Hval' as (final & _ & Hshares & _).
  unfold sensitivity_of in Hgrid.
  apply sensitivity_cells in Hgrid as (_ & _ & Hcells).
  assert (Hall : ∀ w g,
    w ∈ wacc_range (wacc (capital ctx)) → g ∈ g_range → g < w →
    ∃ v, valuation (info inp) (projected ctx) (projection ctx) w g
           (forecast_years inp) (net_debt (capital ctx)) = Ok v
         ∧ cells df !! (label w, label g)
           = Some (Value (round (fair_value_per_share v) 2))).
  { intros w g Hw Hg Hlt.
    destruct (Hcells w g Hw Hg) as (c & Hc & Hlook).
    rewrite (written_cell_valuation (info inp)) in Hc by done.
    apply bind_Ok in Hc as (v & Hv & Hc). injection Hc as <-.
    by exists v. }
  split; [exact Hall|].
  intros Hg Hlt.
  destruct (Hall _ _ (wacc_in_wacc_range _) Hg Hlt) as (v & Hv & Hlook).
  rewrite Hval in Hv. by injection Hv as <-.
Qed.

Lemma sensitivity_recomputation_witness :
  ∃ ctx df,
    compute Sample.inputs = Ok ctx
    ∧ sensitivity_of Sample.inputs ctx = Ok df
    ∧ cells df !! (label (wacc (capital ctx)),
                   label (terminal_growth_rate ctx))
      = Some (Value (round (fair_value_per_share (result_of ctx)) 2)).
Proof.
  eexists.
  assert (Hrun : compute Sample.inputs = Ok ?[ctx])
    by (vm_compute; reflexivity).
  destruct (sensitivity_of_total _ _ Hrun) as [df Hgrid].
  exists df. split; [exact Hrun|]. split; [exact Hgrid|].
  apply (proj2 (sensitivity_recomputation _ _ _ Hrun Hgrid)).
  - rewrite g_range_eq.
    do 3 apply list_elem_of_further. apply elem_of_cons. left.
    apply Qc_is_canon. vm_compute. reflexivity.
  - vm_compute. reflexivity.
Defined.

(** ** The base case below the terminal growth rate *)

(** C2.  The base case at a discount rate below the terminal growth rate:
    for a company with negative free cash flow, a beta of 0 and a 4%
    treasury yield against a terminal growth rate of 5%, the run succeeds
    and shows a positive fair value per share as an ordinary metric, with
    no error notice. *)
Theorem base_case_not_guarded :
  ∃ ctx q,
    compute (Sample.low_rate Sample.cash_flow_negative 5) = Ok ctx
    ∧ wacc (capital ctx) < terminal_growth_rate ctx
    ∧ fair_value_per_share (result_of ctx) = Fin q
    ∧ 0 < q
    ∧ Metric "Fair Value per Share" (Dollars (Fin q))
      ∈ run (Sample.low_rate Sample.cash_flow_negative 5)
    ∧ Forall (λ e, is_error_notice e = false)
             (run (Sample.low_rate Sample.cash_flow_negative 5)).
Proof.
  eexists. eexists.
  assert (Hrun : compute (Sample.low_rate Sample.cash_flow_negative 5)
                 = Ok ?[ctx]) by (vm_compute; reflexivity).
  match type of Hrun with
  | _ = Ok ?c =>
      assert (Hfair : fair_value_per_share (result_of c) = Fin ?[q])
        by (vm_compute; reflexivity)
  end.
  assert (Hticker : upper (ticker_input
                             (Sample.low_rate Sample.cash_flow_negative 5))
                    ≠ EmptyString) by (vm_compute; discriminate).
  split; [exact Hrun|].
  split; [vm_compute; reflexivity|].
  split; [exact Hfair|].
  split; [vm_compute; reflexivity|].
  split.
  - destruct (run_Ok _ _ Hticker Hrun) as (df & _ & ->).
    rewrite <- Hfair.
    apply elem_of_app. right. apply elem_of_app. left.
    apply metrics_fair_value.
  - by apply (run_Ok_no_error _ _ Hticker Hrun).
Qed.

(** At a discount rate equal to the terminal growth rate the division by
    zero raises nothing: the fair value per share is a non-finite float,
    shown as a metric like any other. *)
Lemma base_case_equal_rates :
  ∃ ctx,
    compute (Sample.low_rate Sample.cash_flow 4) = Ok ctx
    ∧ wacc (capital ctx) = terminal_growth_rate ctx
    ∧ fair_value_per_share (result_of ctx) = NonFin
    ∧ Metric "Fair Value per Share" (Dollars NonFin)
      ∈ run (Sample.low_rate Sample.cash_flow 4).
Proof.
  eexists.
  assert (Hrun : compute (Sample.low_rate Sample.cash_flow 4) = Ok ?[ctx])
    by (vm_compute; reflexivity).
  match type of Hrun with
  | _ = Ok ?c =>
      assert (Hfair : fair_value_per_share (result_of c) = NonFin)
        by (vm_compute; reflexivity)
  end.
  split; [exact Hrun|].
  split; [apply Qc_is_canon; vm_compute; reflexivity|].
  split; [exact Hfair|].
  assert (Hticker : upper (ticker_input (Sample.low_rate Sample.cash_flow 4))
                    ≠ EmptyString) by (vm_compute; discriminate).
  destruct (run_Ok _ _ Hticker Hrun) as (df & _ & ->).
  rewrite <- Hfair.
  apply elem_of_app. right. apply elem_of_app. left.
  apply metrics_fair_value.
Qed.

(** * Further properties *)

(** ** Which runs succeed *)

(** X1.  The spinner block succeeds exactly when the data are sufficient:
    both cash-flow lines exist and some period has both values, the
    treasury series has a value, the profile has a market capitalisation
    and a number of shares, the income statement has an interest expense
    whenever the total debt is positive, and at least one year is
    forecast. *)
Theorem compute_succeeds_iff (inp : Inputs) :
  (∃ ctx, compute inp = Ok ctx) ↔ sufficient inp.
Proof.
  split.
  - intros [ctx Hrun]. by apply (compute_Ok_sufficient inp ctx).
  - apply sufficient_compute_Ok.
Qed.

Lemma compute_succeeds_iff_witness : sufficient Sample.inputs.
Proof.
  apply (proj1 (compute_succeeds_iff Sample.inputs)).
  eexists. vm_compute. reflexivity.
Defined.

Lemma bind_Raise {A B} (m : result A) (k : A → result B) e :
  m ≫= k = Raise e ↔ m = Raise e ∨ ∃ a, m = Ok a ∧ k a = Raise e.
Proof.
  destruct m as [a|e']; simpl; split.
  - intros H. right. by exists a.
  - intros [H|(a' & Ha & H)]; [done|]. by injection Ha as ->.
  - intros [= ->]. by left.
  - intros [[= ->]|(a' & Ha & _)]; done.
Qed.

Lemma getitem_last_Raise {A} (l : list A) e :
  getitem_last l = Raise e → e = IndexError ∧ l = [].
Proof.
  unfold getitem_last. destruct (last l) eqn:Hl; [done|].
  intros [= <-]. split; [done|]. by apply last_None.
Qed.

Lemma getitem_Raise {V} (d : gmap string V) k e :
  getitem d k = Raise e → e = KeyError k ∧ d !! k = None.
Proof. unfold getitem. destruct (d !! k); [done|]. by intros [= <-]. Qed.

Lemma column_Raise (df : DataFrame) k e :
  column df k = Raise e → e = KeyError k ∧ columns df !! k = None.
Proof.
  unfold column. intros H. apply bind_Raise in H as [H|(a & _ & H)]; [|done].
  by apply getitem_Raise.
Qed.

(** X2.  The only exceptions a run can meet are an index error and a key
    error on one of five names. *)
Theorem compute_failures (inp : Inputs) (e : exn) :
  compute inp = Raise e → e ∈ known_failures.
Proof.
  assert (Hin : ∀ x, x = IndexError ∨ x = KeyError cfo_key
                     ∨ x = KeyError capex_key ∨ x = KeyError "marketCap"
                     ∨ x = KeyError "Interest Expense"
                     ∨ x = KeyError "sharesOutstanding" →
                     x ∈ known_failures).
  { intros x Hx. unfold known_failures. apply list_elem_of_In. simpl.
    intuition auto. }
  unfold compute. cbv zeta. intros H. apply Hin.
  apply bind_Raise in H as [H|([rows base] & _ & H)].
  { unfold fcff_history in H.
    apply bind_Raise in H as [H|(cfo & _ & H)];
      [apply column_Raise in H as [-> _]; tauto|].
    apply bind_Raise in H as [H|(cx & _ & H)]; [|done].
    apply column_Raise in H as [-> _]. tauto. }
  apply bind_Raise in H as [H|(lp & _ & H)];
    [apply getitem_last_Raise in H as [-> _]; tauto|].
  apply bind_Raise in H as [H|(rf & _ & H)];
    [apply getitem_last_Raise in H as [-> _]; tauto|].
  apply bind_Raise in H as [H|(cap & _ & H)].
  { unfold capital_structure in H.
    apply bind_Raise in H as [H|(mc & _ & H)];
      [apply getitem_Raise in H as [-> _]; tauto|].
    cbv zeta in H.
    destruct (proj1 (bind_Raise _ _ _) H) as [Hie|(ie & _ & Hie)]; [|done].
    destruct (decide _); [|done].
    apply bind_Raise in Hie as [Hie|(s & _ & Hie)];
      [apply column_Raise in Hie as [-> _]; tauto|].
    apply bind_Raise in Hie as [Hie|(x & _ & Hie)]; [|done].
    apply getitem_last_Raise in Hie as [-> _]. tauto. }
  apply bind_Raise in H as [H|(v & _ & H)]; [|done].
  unfold valuation in H. cbv zeta in H.
  apply bind_Raise in H as [H|(final & _ & H)];
    [apply getitem_last_Raise in H as [-> _]; tauto|].
  apply bind_Raise in H as [H|(sh & _ & H)]; [|done].
  apply getitem_Raise in H as [-> _]. tauto.
Qed.

Lemma compute_failures_witness : KeyError "marketCap" ∈ known_failures.
Proof.
  apply (compute_failures (with_info Sample.profile_no_cap Sample.inputs)).
  vm_compute. reflexivity.
Defined.

(** X3.  A cash-flow statement without the operating cash flow line, or
    with it but without the capital expenditure line, stops the run with a
    key error on that line. *)
Theorem missing_cash_flow_line (inp : Inputs) :
  (items (cash_flow_stmt inp) !! cfo_key = None →
     compute inp = Raise (KeyError cfo_key))
  ∧ (is_Some (items (cash_flow_stmt inp) !! cfo_key) →
     items (cash_flow_stmt inp) !! capex_key = None →
     compute inp = Raise (KeyError capex_key)).
Proof.
  split.
  - intros H.
    assert (Hc : columns (transpose_div (cash_flow_stmt inp) giga) !! cfo_key
                 = None) by (by rewrite transpose_div_lookup, H).
    unfold compute, fcff_history. cbv zeta.
    by rewrite (column_None _ _ Hc).
  - intros [cs Hcs] H.
    assert (Hc : columns (transpose_div (cash_flow_stmt inp) giga) !! cfo_key
                 = Some ((fmap (M := list) (fmap (M := option)
                                              (λ x, x / giga))) cs))
      by (by rewrite transpose_div_lookup, Hcs).
    assert (Hx : columns (transpose_div (cash_flow_stmt inp) giga) !! capex_key
                 = None) by (by rewrite transpose_div_lookup, H).
    unfold compute, fcff_history. cbv zeta.
    by rewrite (column_Some _ _ _ Hc), (column_None _ _ Hx).
Qed.

Lemma missing_cash_flow_line_witness :
  compute (with_cash_flow {| periods := Sample.fiscal_years; items := ∅ |}
                          Sample.inputs)
  = Raise (KeyError cfo_key).
Proof.
  apply (proj1 (missing_cash_flow_line _)). reflexivity.
Defined.

(** ** The page *)

Lemma upper_empty (s : string) : upper s = EmptyString ↔ s = EmptyString.
Proof. destruct s; simpl; split; done. Qed.

(** X5.  The page is the bare caption exactly when no ticker was typed:
    nothing is computed or shown for an empty ticker, and any ticker gets
    at least a title. *)
Theorem run_without_ticker (inp : Inputs) :
  run inp = [Caption]%list ↔ ticker_input inp = EmptyString.
Proof.
  split.
  - intros Hpage. destruct (decide (ticker_input inp = EmptyString)) as [|Hne];
      [done|].
    exfalso. unfold run in Hpage. cbv zeta in Hpage.
    rewrite decide_False in Hpage by (by rewrite upper_empty).
    discriminate Hpage.
  - intros Hempty. unfold run. cbv zeta.
    by rewrite decide_True by (by rewrite upper_empty).
Qed.

Lemma run_without_ticker_witness :
  run (with_ticker EmptyString Sample.inputs) = [Caption]%list.
Proof.
  apply (proj2 (run_without_ticker (with_ticker EmptyString Sample.inputs))).
  reflexivity.
Defined.

(** ** Capital structure *)

Lemma Qcdiv_nonneg (a b : Qc) : 0 ≤ a → 0 < b → 0 ≤ a / b.
Proof.
  intros Ha Hb. unfold Qcdiv. apply Qcinv_pos in Hb.
  revert Hb. generalize (/ b). intros i Hi. qc2q. nra.
Qed.

(** X6.  A company without debt: the income statement is not consulted,
    the interest expense is 0 and the cost of debt is the fixed 2%. *)
Theorem no_debt_ignores_income_statement info rf b mr
    (income1 income2 : DataFrame) :
  get info "totalDebt" 0 ≤ 0 →
  capital_structure info income1 rf b mr
  = capital_structure info income2 rf b mr
  ∧ ∀ cap, capital_structure info income1 rf b mr = Ok cap →
           interest_expense cap = 0 ∧ cost_of_debt cap = qc 0.02.
Proof.
  intros Hd.
  assert (Hnot : ¬ 0 < get info "totalDebt" 0 / giga).
  { rewrite div_giga_pos. by apply Qcle_not_lt. }
  split.
  - unfold capital_structure. destruct (getitem info "marketCap"); [|done].
    cbn [mbind result_bind]. cbv zeta. by rewrite !decide_False by done.
  - intros cap Hcap.
    pose proof (capital_structure_interest _ _ _ _ _ _ Hcap) as [_ Hno].
    apply capital_structure_Ok in Hcap as (mc & _ & _ & Htd & _).
    apply Hno. by rewrite Htd.
Qed.

Lemma no_debt_ignores_income_statement_witness :
  capital_structure Sample.profile_no_debt (transpose_div Sample.income giga)
    (qc 0.04) (qc 0) (qc 0.09)
  = capital_structure Sample.profile_no_debt
      (transpose_div Sample.balance giga) (qc 0.04) (qc 0) (qc 0.09).
Proof.
  assert (Hd : get Sample.profile_no_debt "totalDebt" 0 ≤ 0)
    by (vm_compute; discriminate).
  apply (proj1 (no_debt_ignores_income_statement _ _ _ _ _ _ Hd)).
Defined.

(** X7.  The interest expense and the cost of debt are never negative,
    whatever the sign of the reported interest expense. *)
Theorem cost_of_debt_nonneg info income_stmt rf b mr (cap : Capital) :
  capital_structure info income_stmt rf b mr = Ok cap →
  0 ≤ interest_expense cap ∧ 0 ≤ cost_of_debt cap.
Proof.
  intros Hcap.
  pose proof (capital_structure_interest _ _ _ _ _ _ Hcap) as [Hyes Hno].
  destruct (decide (0 < total_debt cap)) as [Hd|Hd].
  - destruct (Hyes Hd) as (s & x & _ & _ & -> & ->).
    split; [apply Qcabs_nonneg|].
    apply Qcdiv_nonneg; [apply Qcabs_nonneg | done].
  - destruct (Hno Hd) as [-> ->]. split; [done|]. qc_lra.
Qed.

Lemma cost_of_debt_nonneg_witness :
  ∃ cap,
    capital_structure Sample.profile (transpose_div Sample.income giga)
      (qc 0.0425) (qc 1) (qc 0.09) = Ok cap
    ∧ 0 ≤ cost_of_debt cap.
Proof.
  eexists.
  assert (Hcap : capital_structure Sample.profile
                   (transpose_div Sample.income giga)
                   (qc 0.0425) (qc 1) (qc 0.09) = Ok ?[cap])
    by (vm_compute; reflexivity).
  split; [exact Hcap|]. exact (proj2 (cost_of_debt_nonneg _ _ _ _ _ _ Hcap)).
Defined.

(** The two weights as multiples of the inverse of the total capital. *)
Lemma weights_by_inverse info income_stmt rf b mr (cap : Capital) :
  capital_structure info income_stmt rf b mr = Ok cap →
  0 < total_value cap →
  ∃ i, 0 < i
       ∧ (market_cap cap + net_debt cap) * i = 1
       ∧ equity_weight cap = market_cap cap * i
       ∧ debt_weight cap = net_debt cap * i.
Proof.
  intros Hcap Hpos.
  apply capital_structure_Ok in Hcap
    as (mc & _ & _ & _ & _ & _ & Htv & Hew & Hdw & _).
  assert (Hne : total_value cap ≠ 0).
  { intros Hz. rewrite Hz in Hpos. by apply Qclt_not_eq in Hpos. }
  exists (/ total_value cap). split; [by apply Qcinv_pos|].
  split; [rewrite <- Htv; by apply Qcmult_inv_r|].
  rewrite Hew, Hdw. unfold equity_weight_of, debt_weight_of.
  by rewrite !decide_False by done.
Qed.

(** X8.  A net cash position is not clamped: with negative net debt and
    positive total capital the debt weight is negative and the equity
    weight is above 1. *)
Theorem net_cash_weights info income_stmt rf b mr (cap : Capital) :
  capital_structure info income_stmt rf b mr = Ok cap →
  net_debt cap < 0 → 0 < total_value cap →
  debt_weight cap < 0 ∧ 1 < equity_weight cap.
Proof.
  intros Hcap Hnd Hpos.
  destruct (weights_by_inverse _ _ _ _ _ _ Hcap Hpos)
    as (i & Hi & Hone & -> & ->).
  revert Hnd Hi Hone.
  generalize (market_cap cap) (net_debt cap). intros m d Hnd Hi Hone.
  qc2q. split; nra.
Qed.

Lemma net_cash_weights_witness :
  ∃ cap,
    capital_structure Sample.profile (transpose_div Sample.income giga)
      (qc 0.0425) (qc 1) (qc 0.09) = Ok cap
    ∧ debt_weight cap < 0 ∧ 1 < equity_weight cap.
Proof.
  eexists.
  assert (Hcap : capital_structure Sample.profile
                   (transpose_div Sample.income giga)
                   (qc 0.0425) (qc 1) (qc 0.09) = Ok ?[cap])
    by (vm_compute; reflexivity).
  split; [exact Hcap|].
  apply (net_cash_weights _ _ _ _ _ _ Hcap); vm_compute; reflexivity.
Defined.

(** X9.  With a net debt that is not negative and a positive market
    capitalisation, the discount rate lies between the cost of equity and
    the cost of debt after tax. *)
Theorem wacc_between_costs info income_stmt rf b mr (cap : Capital) :
  capital_structure info income_stmt rf b mr = Ok cap →
  0 ≤ net_debt cap → 0 < market_cap cap →
  (cost_of_equity cap ≤ cost_of_debt cap * (1 - tax_rate) →
     cost_of_equity cap ≤ wacc cap
     ∧ wacc cap ≤ cost_of_debt cap * (1 - tax_rate))
  ∧ (cost_of_debt cap * (1 - tax_rate) ≤ cost_of_equity cap →
     cost_of_debt cap * (1 - tax_rate) ≤ wacc cap
     ∧ wacc cap ≤ cost_of_equity cap).
Proof.
  intros Hcap Hnd Hmc.
  assert (Hpos : 0 < total_value cap).
  { pose proof Hcap as Hcap'.
    apply capital_structure_Ok in Hcap'
      as (mc & _ & _ & _ & _ & _ & -> & _).
    revert Hnd Hmc. generalize (market_cap cap) (net_debt cap).
    intros m d Hnd Hmc. qc2q. lra. }
  destruct (weights_by_inverse _ _ _ _ _ _ Hcap Hpos)
    as (i & Hi & Hone & Hew & Hdw).
  apply capital_structure_Ok in Hcap
    as (mc & _ & _ & _ & _ & _ & _ & _ & _ & _ & ->).
  rewrite Hew, Hdw. clear Hew Hdw Hpos.
  replace (market_cap cap * i * cost_of_equity cap
           + net_debt cap * i * cost_of_debt cap * (1 - tax_rate))
    with (market_cap cap * i * cost_of_equity cap
          + net_debt cap * i * (cost_of_debt cap * (1 - tax_rate))) by ring.
  assert (Hu : 0 ≤ market_cap cap * i).
  { revert Hmc Hi. generalize (market_cap cap). intros m Hmc Hi. qc2q. nra. }
  assert (Hv : 0 ≤ net_debt cap * i).
  { revert Hnd Hi. generalize (net_debt cap). intros d Hnd Hi. qc2q. nra. }
  assert (Huv : market_cap cap * i + net_debt cap * i = 1)
    by (rewrite <- Hone; ring).
  revert Hu Hv Huv.
  generalize (market_cap cap * i) (net_debt cap * i) (cost_of_equity cap)
             (cost_of_debt cap * (1 - tax_rate)).
  intros u v a c Hu Hv Huv.
  split; intros Hac; qc2q; split; nra.
Qed.

Lemma wacc_between_costs_witness :
  ∃ cap,
    capital_structure Sample.profile_no_total_cash
      (transpose_div Sample.income giga) (qc 0.0425) (qc 1) (qc 0.09) = Ok cap
    ∧ cost_of_debt cap * (1 - tax_rate) ≤ wacc cap
    ∧ wacc cap ≤ cost_of_equity cap.
Proof.
  eexists.
  assert (Hcap : capital_structure Sample.profile_no_total_cash
                   (transpose_div Sample.income giga)
                   (qc 0.0425) (qc 1) (qc 0.09) = Ok ?[cap])
    by (vm_compute; reflexivity).
  split; [exact Hcap|].
  apply (proj2 (wacc_between_costs _ _ _ _ _ _ Hcap
                  ltac:(vm_compute; discriminate)
                  ltac:(vm_compute; reflexivity))).
  vm_compute. discriminate.
Defined.

(** ** Shape of the sensitivity grid *)

(** The loops as one pass of stores over the pairs of rates. *)
Lemma sensitivity_as_store projected projection n nd shares wacc df :
  sensitivity projected projection n nd shares wacc = Ok df →
  for_each (list_prod (wacc_range wacc) g_range)
    (λ p d, written_cell projected projection n nd shares p.1 p.2
            ≫= λ c, Ok (loc_set d (label p.1, label p.2).1
                                  (label p.1, label p.2).2 c))
    (new_grid (label <$> wacc_range wacc) (label <$> g_range))
  = Ok df.
Proof.
  unfold sensitivity. cbv zeta. rewrite for_each_nested. intros Hrun.
  rewrite <- Hrun. clear Hrun.
  generalize (new_grid (label <$> wacc_range wacc) (label <$> g_range)).
  induction (list_prod (wacc_range wacc) g_range) as [|p l IH];
    intros d; simpl; [done|].
  rewrite sensitivity_step_written.
  destruct (written_cell _ _ _ _ _ _ _) as [c|e]; simpl; [apply IH | done].
Qed.

Lemma written_cell_not_blank projected projection n nd shares w g c :
  written_cell projected projection n nd shares w g = Ok c →
  c = NA ∨ ∃ x, c = Value x.
Proof.
  unfold written_cell. destruct (decide (w ≤ g)); [intros [= <-]; by left|].
  intros H. apply bind_Ok in H as (final & _ & H). cbv zeta in H.
  injection H as <-. right. by eexists.
Qed.

Lemma new_grid_lookup rows cols k c :
  cells (new_grid rows cols) !! k = Some c →
  c = Blank ∧ k.1 ∈ rows ∧ k.2 ∈ cols.
Proof.
  unfold new_grid. simpl. intros H.
  apply elem_of_list_to_map_2 in H.
  apply list_elem_of_fmap in H as ([r c'] & Heq & Hin).
  injection Heq as -> ->. split; [done|]. simpl.
  apply list_elem_of_In, in_prod_iff in Hin as [Hr Hc].
  split; by apply list_elem_of_In.
Qed.

(** X12.  The finished grid has a cell for each pair of a row label and a
    column label and for nothing else, and no cell is left blank: each
    holds the N/A marker or a number. *)
Theorem grid_complete projected projection n nd shares wacc (df : Grid) :
  sensitivity projected projection n nd shares wacc = Ok df →
  ∀ r c,
    (is_Some (cells df !! (r, c)) ↔ r ∈ row_labels df ∧ c ∈ col_labels df)
    ∧ (∀ x, cells df !! (r, c) = Some x → x = NA ∨ ∃ y, x = Value y).
Proof.
  intros Hrun r c.
  pose proof (sensitivity_cells _ _ _ _ _ _ _ Hrun) as (Hrows & Hcols & Hcells).
  apply sensitivity_as_store in Hrun.
  apply (for_each_store (λ p : Qc * Qc, (label p.1, label p.2))
           (λ p, written_cell projected projection n nd shares p.1 p.2))
    in Hrun as (_ & _ & _ & Hout).
  2:{ intros [w g] [w' g'] Hp Hp' Heq.
      apply list_elem_of_In, in_prod_iff in Hp as [Hw Hg].
      apply list_elem_of_In, in_prod_iff in Hp' as [Hw' Hg'].
      apply list_elem_of_In in Hw, Hg, Hw', Hg'.
      pose proof (f_equal fst Heq) as Hlw. pose proof (f_equal snd Heq) as Hlg.
      cbn [fst snd] in Hlw, Hlg |- *.
      assert (w = w') as -> by (by apply (label_inj_wacc_range wacc)).
      assert (g = g') as -> by (by apply label_inj_g_range).
      reflexivity. }
  rewrite Hrows, Hcols.
  destruct (decide (r ∈ label <$> wacc_range wacc
                    ∧ c ∈ label <$> g_range)) as [[Hr Hc]|Hnot].
  - apply list_elem_of_fmap in Hr as (w & -> & Hw).
    apply list_elem_of_fmap in Hc as (g & -> & Hg).
    destruct (Hcells w g Hw Hg) as (x & Hx & Hlook).
    split.
    + split; [intros _|intros _; by eexists].
      split; by apply list_elem_of_fmap_2.
    + intros y Hy. rewrite Hlook in Hy. injection Hy as <-.
      by apply written_cell_not_blank in Hx.
  - assert (Hnone : cells df !! (r, c) = None).
    { rewrite Hout.
      - destruct (cells (new_grid _ _) !! (r, c)) as [x|] eqn:Hx; [|done].
        apply new_grid_lookup in Hx as (_ & Hr & Hc). by destruct Hnot.
      - intros [w g] Hp Heq.
        apply list_elem_of_In, in_prod_iff in Hp as [Hw Hg].
        apply list_elem_of_In in Hw, Hg.
        pose proof (f_equal fst Heq) as Hlw. pose proof (f_equal snd Heq) as Hlg.
        cbn [fst snd] in Hlw, Hlg. subst r c.
        apply Hnot. split; by apply list_elem_of_fmap_2. }
    rewrite Hnone. split.
    + split; [by intros [x Hx] | done].
    + done.
Qed.

Lemma grid_complete_witness :
  ∃ df,
    sensitivity [Fin (qc 100)] [(2025%Z, Fin (qc 100))] 1 (qc 0) (qc 1)
                (qc 0.04) = Ok df
    ∧ is_Some (cells df !! (label (qc 0.04), label (qc 0.035))).
Proof.
  destruct (sensitivity_total [Fin (qc 100)] [(2025%Z, Fin (qc 100))] 1
              (qc 0) (qc 1) (qc 0.04)) as [df Hrun]; [done|].
  exists df. split; [exact Hrun|].
  apply (proj1 (grid_complete _ _ _ _ _ _ _ Hrun _ _)).
  destruct (sensitivity_cells _ _ _ _ _ _ _ Hrun) as (-> & -> & _).
  split; apply list_elem_of_fmap_2.
  - apply wacc_in_wacc_range.
  - rewrite g_range_eq. apply list_elem_of_here.
Defined.

(** ** Chained compounding *)

Lemma fmul_assoc x y z : fmul x (fmul y z) = fmul (fmul x y) z.
Proof. destruct x, y, z; simpl; try done. by rewrite Qcmult_assoc. Qed.

Lemma Qcpower_succ (x : Qc) (n : nat) : x ^ S n = x * x ^ n.
Proof. reflexivity. Qed.

(** X14.  The projection compounds year on year: its first value is the
    base FCFF grown once, and each later value is the value of the year
    before grown once more. *)
Theorem projection_chained (base : float) (gr : Qc) (n i : nat) (x : float) :
  (S i < n)%nat →
  projected_fcff base gr n !! i = Some x →
  projected_fcff base gr n !! 0%nat = Some (fmul base (Fin (1 + gr)))
  ∧ projected_fcff base gr n !! S i = Some (fmul x (Fin (1 + gr))).
Proof.
  intros Hi Hx.
  rewrite projected_fcff_lookup in Hx by lia. injection Hx as <-.
  rewrite !projected_fcff_lookup by lia. split.
  - apply (f_equal Some), (f_equal (fmul base)), (f_equal Fin).
    rewrite Qcpower_succ. change ((1 + gr) ^ 0) with (Q2Qc 1). ring.
  - apply (f_equal Some). rewrite <- fmul_assoc. cbn [fmul].
    apply (f_equal (fmul base)), (f_equal Fin).
    rewrite !Qcpower_succ. generalize ((1 + gr) ^ i). intros p. ring.
Qed.

Lemma projection_chained_witness :
  projected_fcff (Fin (qc 100)) (qc 0.1) 3 !! 2%nat
  = Some (fmul (fmul (Fin (qc 100)) (Fin ((1 + qc 0.1) ^ 2)))
               (Fin (1 + qc 0.1))).
Proof.
  apply (proj2 (projection_chained (Fin (qc 100)) (qc 0.1) 3 1 _
                  ltac:(lia) ltac:(reflexivity))).
Defined.

(** ** The chart *)

Lemma StronglySorted_drop {A} (R : relation A) (n : nat) (l : list A) :
  StronglySorted R l → StronglySorted R (drop n l).
Proof.
  revert l. induction n as [|n IH]; intros l Hl; [done|].
  destruct l as [|x l]; [done|]. simpl. apply IH. by inv Hl.
Qed.

Lemma last_tail {A} (n : nat) (l : list A) : n ≠ 0%nat → last (tail n l) = last l.
Proof.
  intros Hn. unfold tail. rewrite !last_lookup, lookup_drop, length_drop.
  destruct l as [|x l]; [done|]. f_equal. simpl. lia.
Qed.

Lemma ts_le_year a b : ts_le a b → (year a ≤ year b)%Z.
Proof. unfold ts_le. lia. Qed.

(** X15.  The horizontal axis of the chart: the years of the last three
    valid periods, or of all of them when there are fewer, oldest first
    and ending with the last historical year, followed by the forecast
    years, which start one year later. *)
Theorem chart_axis (inp : Inputs) (ctx : Context) :
  compute inp = Ok ctx →
  ∃ points,
    chart ctx = [ Subheader "Historical & Projected FCFF";
                  LineChart points; Divider ]
    ∧ fst <$> points
      = chart_years ctx
        ++ forecast_years_range (last_year ctx) (forecast_years inp)
    ∧ length (chart_years ctx) = (length (fcff_df ctx) `min` 3)%nat
    ∧ StronglySorted Z.le (chart_years ctx)
    ∧ last (chart_years ctx) = Some (last_year ctx).
Proof.
  intros Hrun.
  apply compute_Ok in Hrun
    as (lp & rf & Hhist & Hlast & Hyear & _ & _ & _ & _ & Hproj & _).
  apply fcff_history_Ok in Hhist as (cs & xs & _ & _ & Hsorted & _ & _).
  eexists. split; [reflexivity|]. split; [|split; [|split]].
  - rewrite fmap_app, <- list_fmap_compose. f_equal.
    rewrite Hproj. unfold projection_df. apply fst_zip.
    rewrite forecast_years_range_length, projected_fcff_length. lia.
  - unfold chart_years, tail. rewrite length_fmap, length_drop. lia.
  - unfold chart_years, tail.
    apply (StronglySorted_fmap _ (λ r1 r2, ts_le (period r1) (period r2))).
    + intros r1 r2. apply ts_le_year.
    + by apply StronglySorted_drop.
  - unfold chart_years. rewrite fmap_last, last_tail by done.
    rewrite fmap_last in Hlast.
    destruct (last (fcff_df ctx)) as [r|]; [|done].
    injection Hlast as <-. simpl. by rewrite Hyear.
Qed.

Lemma chart_axis_witness :
  ∃ ctx,
    compute Sample.inputs = Ok ctx
    ∧ last (chart_years ctx) = Some (last_year ctx).
Proof.
  eexists.
  assert (Hrun : compute Sample.inputs = Ok ?[ctx])
    by (vm_compute; reflexivity).
  destruct (chart_axis _ _ Hrun) as (points & _ & _ & _ & _ & Hlast).
  split; [exact Hrun | exact Hlast].
Defined.

(** ** Order of the periods in the statement *)

Lemma ts_le_antisym a b : ts_le a b → ts_le b a → a = b.
Proof.
  destruct a as [ya ma da], b as [yb mb db]. unfold ts_le. simpl.
  intros H1 H2. f_equal; lia.
Qed.

Lemma NoDup_fmap_eq {A B} (f : A → B) (l : list A) x y :
  NoDup (f <$> l) → x ∈ l → y ∈ l → f x = f y → x = y.
Proof.
  induction l as [|z l IH]; intros Hnd Hx Hy Heq;
    [by apply elem_of_nil in Hx|].
  rewrite fmap_cons in Hnd. apply NoDup_cons in Hnd as [Hz Hnd].
  apply elem_of_cons in Hx as [->|Hx]; apply elem_of_cons in Hy as [->|Hy].
  - done.
  - exfalso. apply Hz. rewrite Heq. by apply list_elem_of_fmap_2.
  - exfalso. apply Hz. rewrite <- Heq. by apply list_elem_of_fmap_2.
  - by apply IH.
Qed.

(** X16.  The order in which the provider lists the periods does not
    matter: two cash-flow frames with the same valid periods, no two of
    them on the same date, give the same history and the same base FCFF. *)
Theorem history_order_irrelevant (cf1 cf2 : DataFrame)
    (cs1 xs1 cs2 xs2 : list (option Qc)) :
  columns cf1 !! cfo_key = Some cs1 →
  columns cf1 !! capex_key = Some xs1 →
  columns cf2 !! cfo_key = Some cs2 →
  columns cf2 !! capex_key = Some xs2 →
  valid_periods (index cf1) cs1 xs1 ≡ₚ valid_periods (index cf2) cs2 xs2 →
  NoDup (period <$> valid_periods (index cf1) cs1 xs1) →
  fcff_history cf1 = fcff_history cf2.
Proof.
  intros Hc1 Hx1 Hc2 Hx2 Hperm Hnd.
  destruct (fcff_history_eq cf1 cs1 xs1 Hc1 Hx1) as (r1 & -> & Hs1 & Hp1).
  destruct (fcff_history_eq cf2 cs2 xs2 Hc2 Hx2) as (r2 & -> & Hs2 & Hp2).
  assert (r1 = r2) as ->; [|done].
  apply (StronglySorted_unique_strong
           (λ a b, ts_le (period a) (period b))); try done.
  - intros a b Ha Hb Hab Hba.
    apply (NoDup_fmap_eq period r1).
    + by rewrite Hp1.
    + done.
    + by rewrite Hp1, Hperm, <- Hp2.
    + by apply ts_le_antisym.
  - by rewrite Hp1, Hperm, <- Hp2.
Qed.

Lemma history_order_irrelevant_witness :
  fcff_history (transpose_div Sample.cash_flow giga)
  = fcff_history (transpose_div Unordered.cash_flow giga).
Proof.
  assert (Hc1 : columns (transpose_div Sample.cash_flow giga) !! cfo_key
                = Some ((fmap (M := list) (fmap (M := option) (λ x, x / giga)))
                          [Sample.bn 120; Sample.bn 90; Sample.bn 80;
                           Sample.bn 70; None]))
    by (vm_compute; reflexivity).
  assert (Hx1 : columns (transpose_div Sample.cash_flow giga) !! capex_key
                = Some ((fmap (M := list) (fmap (M := option) (λ x, x / giga)))
                          [Sample.bn (-40); Sample.bn (-30); Sample.bn (-20);
                           Sample.bn (-10); Sample.bn (-5)]))
    by (vm_compute; reflexivity).
  assert (Hc2 : columns (transpose_div Unordered.cash_flow giga) !! cfo_key
                = Some ((fmap (M := list) (fmap (M := option) (λ x, x / giga)))
                          [None; Sample.bn 70; Sample.bn 80; Sample.bn 90;
                           Sample.bn 120]))
    by (vm_compute; reflexivity).
  assert (Hx2 : columns (transpose_div Unordered.cash_flow giga) !! capex_key
                = Some ((fmap (M := list) (fmap (M := option) (λ x, x / giga)))
                          [Sample.bn (-5); Sample.bn (-10); Sample.bn (-20);
                           Sample.bn (-30); Sample.bn (-40)]))
    by (vm_compute; reflexivity).
  apply (history_order_irrelevant _ _ _ _ _ _ Hc1 Hx1 Hc2 Hx2).
  - etrans; [|apply reverse_Permutation]. vm_compute. reflexivity.
  - vm_compute.
    repeat (apply NoDup_cons; split;
            [rewrite ?not_elem_of_cons; repeat split;
             first [apply not_elem_of_nil | discriminate] |]).
    apply NoDup_nil_2.
Defined.

(** ** Units of the history *)

Lemma valid_periods_lookup idx cs xs r :
  r ∈ valid_periods idx cs xs →
  ∃ i c x,
    idx !! i = Some (period r)
    ∧ cs !! i = Some (Some c)
    ∧ xs !! i = Some (Some x)
    ∧ cash_from_operations r = c
    ∧ capex r = x
    ∧ free_cash_flow r = c + x.
Proof.
  unfold valid_periods. intros Hin.
  apply list_elem_of_omap in Hin as ([t [oc ox]] & Hp & Hr).
  apply list_elem_of_lookup in Hp as [i Hi].
  apply lookup_zip_with_Some in Hi as (t' & p & Heq & Ht & Hp).
  apply lookup_zip_with_Some in Hp as (oc' & ox' & -> & Hoc & Hox).
  injection Heq as -> -> ->. simpl in Hr.
  destruct oc' as [c|]; [|done]. destruct ox' as [x|]; [|done].
  injection Hr as <-. by exists i, c, x.
Qed.

(** X17.  Every row of the history comes from a period of the statement
    that reports both values, and carries them in billions: the operating
    cash flow and the capital expenditure divided by 1e9, and their sum. *)
Theorem history_in_billions (inp : Inputs) (ctx : Context)
    (cs xs : list (option Qc)) (r : Row) :
  compute inp = Ok ctx →
  items (cash_flow_stmt inp) !! cfo_key = Some cs →
  items (cash_flow_stmt inp) !! capex_key = Some xs →
  r ∈ fcff_df ctx →
  ∃ i c x,
    periods (cash_flow_stmt inp) !! i = Some (period r)
    ∧ cs !! i = Some (Some c)
    ∧ xs !! i = Some (Some x)
    ∧ cash_from_operations r = c / giga
    ∧ capex r = x / giga
    ∧ free_cash_flow r = c / giga + x / giga.
Proof.
  intros Hrun Hcs Hxs Hr.
  apply compute_Ok in Hrun as (lp & rf & Hhist & _).
  apply fcff_history_Ok in Hhist as (cs' & xs' & Hc & Hx & _ & Hperm & _).
  rewrite transpose_div_lookup, Hcs in Hc. injection Hc as <-.
  rewrite transpose_div_lookup, Hxs in Hx. injection Hx as <-.
  rewrite Hperm in Hr.
  apply valid_periods_lookup in Hr
    as (i & c' & x' & Ht & Hc & Hx & Hcfo & Hcapex & Hfcf).
  rewrite list_lookup_fmap in Hc, Hx.
  destruct (cs !! i) as [[c|]|] eqn:Hci; try done.
  destruct (xs !! i) as [[x|]|] eqn:Hxi; try done.
  simpl in Hc, Hx. injection Hc as <-. injection Hx as <-.
  by exists i, c, x.
Qed.

Lemma history_in_billions_witness :
  ∃ ctx r,
    compute Sample.inputs = Ok ctx
    ∧ last (fcff_df ctx) = Some r
    ∧ ∃ i c x,
        periods Sample.cash_flow !! i = Some (period r)
        ∧ cash_from_operations r = c / giga
        ∧ capex r = x / giga.
Proof.
  eexists.
  assert (Hrun : compute Sample.inputs = Ok ?[ctx])
    by (vm_compute; reflexivity).
  match type of Hrun with
  | _ = Ok ?c0 =>
      assert (Hlast : last (fcff_df c0) = Some ?[r])
        by (vm_compute; reflexivity)
  end.
  eexists. split; [exact Hrun|]. split; [exact Hlast|].
  pose proof (last_Some_elem_of _ _ Hlast) as Hin.
  assert (Hcs : items (cash_flow_stmt Sample.inputs) !! cfo_key
                = Some [Sample.bn 120; Sample.bn 90; Sample.bn 80;
                        Sample.bn 70; None]) by reflexivity.
  assert (Hxs : items (cash_flow_stmt Sample.inputs) !! capex_key
                = Some [Sample.bn (-40); Sample.bn (-30); Sample.bn (-20);
                        Sample.bn (-10); Sample.bn (-5)]) by reflexivity.
  destruct (history_in_billions _ _ _ _ _ Hrun Hcs Hxs Hin)
    as (i & c & x & Hi & _ & _ & Hc & Hx & _).
  exists i, c, x. split; [exact Hi|]. split; [exact Hc | exact Hx].
Defined.

(** ** The grid and the terminal growth slider *)

(** X18.  The sensitivity grid does not use the terminal growth rate of
    the sidebar: two runs that differ in that slider only, and succeed,
    build the same grid. *)
Theorem grid_ignores_terminal_growth (inp : Inputs) (pct : Qc)
    (ctx1 ctx2 : Context) :
  compute inp = Ok ctx1 →
  compute (with_terminal_growth pct inp) = Ok ctx2 →
  sensitivity_of (with_terminal_growth pct inp) ctx2 = sensitivity_of inp ctx1.
Proof.
  intros H1 H2.
  apply compute_Ok in H1
    as (lp1 & rf1 & Hh1 & Hl1 & Hy1 & Hg1 & _ & Hm1 & Hpd1 & Hpj1 & Hr1 & Hrf1
        & Hc1 & Hv1).
  apply compute_Ok in H2
    as (lp2 & rf2 & Hh2 & Hl2 & Hy2 & Hg2 & _ & Hm2 & Hpd2 & Hpj2 & Hr2 & Hrf2
        & Hc2 & Hv2).
  cbn [with_terminal_growth cash_flow_stmt fcff_growth_slider
       market_return_input forecast_years dgs10 info financials beta]
    in Hh2, Hg2, Hm2, Hpd2, Hpj2, Hr2, Hc2, Hv2.
  rewrite Hh1 in Hh2. injection Hh2 as Hrows Hbase.
  rewrite <- Hrows in Hl2. rewrite Hl1 in Hl2. injection Hl2 as <-.
  rewrite Hr1 in Hr2. injection Hr2 as <-.
  rewrite <- Hrf1 in Hrf2. rewrite <- Hy1 in Hy2.
  rewrite <- Hg1 in Hg2. rewrite <- Hm1 in Hm2.
  rewrite Hrf2, Hm2, Hc1 in Hc2. injection Hc2 as Hcap.
  rewrite <- Hbase, Hg2, <- Hpd1 in Hpd2.
  rewrite <- Hbase, Hg2, Hy2, <- Hpj1 in Hpj2.
  apply valuation_Ok in Hv1 as (f1 & _ & Hs1 & _).
  apply valuation_Ok in Hv2 as (f2 & _ & Hs2 & _).
  rewrite Hs1 in Hs2. injection Hs2 as Hshares.
  unfold sensitivity_of.
  cbn [with_terminal_growth forecast_years].
  by rewrite Hpd2, Hpj2, <- Hcap, <- Hshares.
Qed.

Lemma grid_ignores_terminal_growth_witness :
  ∃ ctx1 ctx2,
    compute Sample.inputs = Ok ctx1
    ∧ compute (with_terminal_growth (qc 3) Sample.inputs) = Ok ctx2
    ∧ sensitivity_of (with_terminal_growth (qc 3) Sample.inputs) ctx2
      = sensitivity_of Sample.inputs ctx1.
Proof.
  eexists. eexists.
  assert (H1 : compute Sample.inputs = Ok ?[ctx1])
    by (vm_compute; reflexivity).
  assert (H2 : compute (with_terminal_growth (qc 3) Sample.inputs)
               = Ok ?[ctx2]) by (vm_compute; reflexivity).
  split; [exact H1|]. split; [exact H2|].
  exact (grid_ignores_terminal_growth _ _ _ _ H1 H2).
Defined.

(** * Binary floating point: where the page departs

    In exact arithmetic the sensitivity grid and the weights do what the
    statements above say.  On binary64 floats three of them are missed,
    each at an input the page can receive. *)

Module OnFloats.
Import PrimFloat.
Import Binary64.
#[local] Open Scope float_scope.
#[local] Set Warnings "-inexact-float".

(** The powers of 1.0625 = 17/16 up to the tenth are exact: times 16^i,
    an exact scaling, they are the integers 17^i.  So repeated
    multiplication returns the powers themselves. *)
Lemma powi_exact :
  (λ i, powi 1.0625 i * powi 16 i) <$> seq 1 10
  = [17; 289; 4913; 83521; 1419857; 24137569; 410338673; 6975757441;
     118587876497; 2015993900449].
Proof. vm_compute. reflexivity. Qed.

(** C3.  The sentinel is missed at a discount rate of 3.5%.  The fourth
    row [np.arange] produces is 0.040000000000000008, not 0.04: it carries
    the label 4.0% like the second column, which is 0.04, yet the test
    [w <= g] of line 165 fails on the two floats, and the cell under
    (4.0%, 4.0%) holds the rounded value of a valuation instead of N/A,
    whatever the powers evaluate to. *)
Theorem sentinel_missed (pow : float → nat → float) (inp : Inputs) :
  wacc (capital_structure inp) = 0.035 →
  ∃ w g,
    wacc_range (wacc (capital_structure inp)) !! 3%nat = Some w
    ∧ g_range !! 1%nat = Some g
    ∧ g = 0.04
    ∧ label w = 4 ∧ label g = 4
    ∧ leb w g = false
    ∧ loc (sensitivity pow inp) 4 4
      = Some (Value (round (fair_price pow inp w g) 2)).
Proof.
  intros Hwacc. unfold sensitivity. rewrite Hwacc.
  exists 0.040000000000000008, 0.04.
  repeat split; vm_compute; reflexivity.
Qed.

Lemma sentinel_missed_witness :
  ∃ w g,
    wacc_range (wacc (capital_structure Sample.low_rate)) !! 3%nat = Some w
    ∧ g_range !! 1%nat = Some g
    ∧ g = 0.04
    ∧ label w = 4 ∧ label g = 4
    ∧ leb w g = false
    ∧ loc (sensitivity powi Sample.low_rate) 4 4
      = Some (Value (round (fair_price powi Sample.low_rate w g) 2)).
Proof.
  apply (sentinel_missed powi Sample.low_rate). vm_compute. reflexivity.
Defined.

(** C5.  The all-equity treatment is missed for a company whose market
    capitalisation plus debt equals its cash (300, 100 and 400 million
    dollars): the three amounts in billions are rounded floats, their
    total is -2^-54 instead of 0, the test of line 85 lets the divisions
    through, and the weights are about -5.4e15 and 5.4e15 in place of 1
    and 0. *)
Theorem zero_capital_missed (inp : Inputs) :
  marketCap inp = 3e8 → totalDebt inp = 1e8 → totalCash inp = 4e8 →
  marketCap inp + (totalDebt inp - totalCash inp) = 0
  ∧ total_value (capital_structure inp) = -0x1p-54
  ∧ equity_weight (capital_structure inp) = -5404319552844595
  ∧ debt_weight (capital_structure inp) = 5404319552844596.
Proof.
  intros Hcap Hdebt Hcash. unfold capital_structure.
  cbn [total_value equity_weight debt_weight].
  rewrite Hcap, Hdebt, Hcash. repeat split; vm_compute; reflexivity.
Qed.

Lemma zero_capital_missed_witness :
  marketCap Sample.net_cash
    + (totalDebt Sample.net_cash - totalCash Sample.net_cash) = 0
  ∧ total_value (capital_structure Sample.net_cash) = -0x1p-54
  ∧ equity_weight (capital_structure Sample.net_cash) = -5404319552844595
  ∧ debt_weight (capital_structure Sample.net_cash) = 5404319552844596.
Proof. apply (zero_capital_missed Sample.net_cash); reflexivity. Defined.



End OnFloats.
